(** * Receipt understanding: the OCR service of the finance application

    A shallow embedding of [backend/src/services/ocrService.js]
    ([parseReceiptText], [determineCategory], [processReceipt],
    [calculateConfidence] and the table [categoryMappings]) together with
    the part of the JavaScript runtime these functions rest on: strings
    as sequences of UTF-16 code units, [trim], [split], [includes],
    regular expressions with the backtracking semantics of ECMAScript,
    [String.prototype.match] with and without the [g] flag, and
    [parseFloat] with the rounding of IEEE 754 binary64. *)

From Stdlib Require Import String Ascii.
From Stdlib Require Import Bool NArith ZArith QArith Qround Lia List.
Import ListNotations.

Close Scope Q_scope.
Set Implicit Arguments.

(** ** JavaScript strings *)

(** A JavaScript string is a sequence of 16-bit code units. *)
Definition unit16 := N.
Definition jsstring := list unit16.

(** ASCII literals of the source, as code units. *)
Definition js (s : string) : jsstring :=
  map N_of_ascii (list_ascii_of_string s).

(** U+20B9, the rupee sign: one code unit. *)
Definition rupee : unit16 := 8377%N.
Definition newline : unit16 := 10%N.

Module Chars.
Local Open Scope N_scope.

Definition eqc (a b : unit16) : bool := a =? b.

(** [\d] *)
Definition isDigit (c : unit16) : bool := (48 <=? c) && (c <=? 57).

(** [\s], which is also the set stripped by [trim]: WhiteSpace and
    LineTerminator of ECMAScript. *)
Definition isSpace (c : unit16) : bool :=
  ((9 <=? c) && (c <=? 13)) || (c =? 32) || (c =? 160) || (c =? 5760)
  || ((8192 <=? c) && (c <=? 8202)) || (c =? 8232) || (c =? 8233)
  || (c =? 8239) || (c =? 8287) || (c =? 12288) || (c =? 65279).

Definition isUpper (c : unit16) : bool := (65 <=? c) && (c <=? 90).
Definition isAscii (c : unit16) : bool := c <? 128.

(** Lower-casing of one ASCII code unit. *)
Definition asciiLower (c : unit16) : unit16 :=
  if isUpper c then c + 32 else c.

(** Canonicalize of a non-unicode [i] regular expression, on the
    patterns of this program: a code unit at or above 128 never
    canonicalizes to an ASCII one, so a pattern letter matches exactly
    its two ASCII cases, and the other pattern characters (digits,
    punctuation, white space, the rupee sign) have no case. *)
Definition eqci (a b : unit16) : bool :=
  if isAscii a && isAscii b then asciiLower a =? asciiLower b else a =? b.
End Chars.
Import Chars.

Module Str.
(** [s.trim()] *)
Fixpoint trimStart (s : jsstring) : jsstring :=
  match s with
  | c :: s' => if isSpace c then trimStart s' else s
  | [] => []
  end.

Definition trimEnd (s : jsstring) : jsstring := rev (trimStart (rev s)).

Definition trim (s : jsstring) : jsstring := trimEnd (trimStart s).

(** [s.split(sep)] for a separator of one code unit: there is always at
    least one piece. *)
Fixpoint split (sep : unit16) (s : jsstring) : list jsstring :=
  match s with
  | [] => [[]]
  | c :: s' =>
      if eqc c sep then [] :: split sep s'
      else match split sep s' with
           | piece :: pieces => (c :: piece) :: pieces
           | [] => [[c]]
           end
  end.

(** [xs.join(sep)] *)
Fixpoint join (sep : jsstring) (xs : list jsstring) : jsstring :=
  match xs with
  | [] => []
  | [x] => x
  | x :: rest => x ++ sep ++ join sep rest
  end.

Fixpoint startsWith (p s : jsstring) : bool :=
  match p, s with
  | [], _ => true
  | _ :: _, [] => false
  | a :: p', b :: s' => eqc a b && startsWith p' s'
  end.

(** [s.includes(p)] *)
Fixpoint includes (s p : jsstring) : bool :=
  startsWith p s ||
  match s with
  | [] => false
  | _ :: s' => includes s' p
  end.

(** [xs.slice(0, n)] *)
Definition slice0 (A : Type) (n : nat) (xs : list A) : list A := firstn n xs.
End Str.

(** ** Regular expressions *)

Module Regex.

(** The constructs used by the patterns of the service. A character
    matcher is a predicate on one code unit (a literal, a class, [\d],
    [\s]); quantifiers are greedy. *)
Inductive regex : Type :=
| Eps
| Chr (p : unit16 -> bool)
| Seq (r1 r2 : regex)
| Alt (r1 r2 : regex)
| Star (r : regex)
| Group (i : nat) (r : regex).

Definition Opt (r : regex) : regex := Alt r Eps.
Definition Plus (r : regex) : regex := Seq r (Star r).

Definition captures := list (nat * jsstring).

Definition capture (i : nat) (c : captures) : option jsstring :=
  match find (fun e => Nat.eqb (fst e) i) c with
  | Some e => Some (snd e)
  | None => None
  end.

Section Matcher.
Variable R : Type.

(** The matcher of ECMAScript, in continuation-passing style as in the
    standard: [m r s c k] matches [r] at the front of [s] and hands
    the rest of the input to [k]; when [k] fails the matcher
    backtracks into [r]. An iteration of a star that consumes nothing
    is rejected, so the number of iterations is bounded by the length
    of the input. No pattern of the service has a group under a star,
    so the reset of the captures at each iteration does not show. *)
Fixpoint m (r : regex) (s : jsstring) (c : captures)
         (k : jsstring -> captures -> option R) {struct r} : option R :=
  match r with
  | Eps => k s c
  | Chr p =>
      match s with
      | x :: s' => if p x then k s' c else None
      | [] => None
      end
  | Seq r1 r2 => m r1 s c (fun s' c' => m r2 s' c' k)
  | Alt r1 r2 =>
      match m r1 s c k with
      | Some res => Some res
      | None => m r2 s c k
      end
  | Star r1 =>
      (fix iter (n : nat) (s : jsstring) (c : captures) : option R :=
         match n with
         | O => k s c
         | S n' =>
             match m r1 s c
                     (fun s' c' =>
                        if Nat.ltb (length s') (length s)
                        then iter n' s' c' else None) with
             | Some res => Some res
             | None => k s c
             end
         end) (length s) s c
  | Group i r1 =>
      m r1 s c
        (fun s' c' => k s' ((i, firstn (length s - length s') s) :: c'))
  end.
End Matcher.

(** One match: the text matched, the capture groups and the input left
    after it. *)
Record result : Type := mkResult {
  whole : jsstring;
  groups : captures;
  rest : jsstring
}.

Definition matchAt (r : regex) (s : jsstring) : option result :=
  m r s [] (fun s' c =>
    Some (mkResult (firstn (length s - length s') s) c s')).

(** [RegExp.prototype.exec] from the start of [s]: the match at the
    leftmost position that has one. *)
Fixpoint exec (r : regex) (s : jsstring) : option result :=
  match matchAt r s with
  | Some res => Some res
  | None =>
      match s with
      | [] => None
      | _ :: s' => exec r s'
      end
  end.

(** [r.test(s)] *)
Definition test (r : regex) (s : jsstring) : bool :=
  match exec r s with Some _ => true | None => false end.

(** The successive matches of a [g] pattern: the search resumes where
    the previous match ended, one code unit further after an empty
    match. *)
Fixpoint execAll (fuel : nat) (r : regex) (s : jsstring) : list jsstring :=
  match fuel with
  | O => []
  | S fuel' =>
      match exec r s with
      | None => []
      | Some res =>
          whole res ::
            match whole res, rest res with
            | [], [] => []
            | [], _ :: s' => execAll fuel' r s'
            | _ :: _, s' => execAll fuel' r s'
            end
      end
  end.

(** What [s.match(r)] returns. Without the [g] flag: [null], or the
    array of the first match, whose element 0 is the whole match and
    whose element [i] is capture group [i]. With the [g] flag: [null],
    or the array of all the whole matches, without any capture group. *)
Inductive matchArray : Type :=
| Null
| First (res : result)
| AllMatches (ms : list jsstring).

Inductive flag := NoG | G.

Record pattern : Type := mkPattern { body : regex; global : flag }.

Definition stringMatch (s : jsstring) (p : pattern) : matchArray :=
  match global p with
  | NoG => match exec (body p) s with
           | Some res => First res
           | None => Null
           end
  | G => match execAll (S (length s)) (body p) s with
         | [] => Null
         | ms => AllMatches ms
         end
  end.

(** [matches[i]]: [None] is [undefined]. *)
Definition element (a : matchArray) (i : nat) : option jsstring :=
  match a with
  | Null => None
  | First res => match i with
                 | O => Some (whole res)
                 | _ => capture i (groups res)
                 end
  | AllMatches ms => nth_error ms i
  end.

(** [s.replace(/[class]/g, '')] *)
Definition removeAll (cls : unit16 -> bool) (s : jsstring) : jsstring :=
  filter (fun x => negb (cls x)) s.

(** Pattern syntax. *)
Definition chr (a : ascii) : regex := Chr (eqc (N_of_ascii a)).

Fixpoint word (eq : unit16 -> unit16 -> bool) (w : jsstring) : regex :=
  match w with
  | [] => Eps
  | [x] => Chr (eq x)
  | x :: w' => Seq (Chr (eq x)) (word eq w')
  end.

(** A literal word, and the same under the [i] flag. *)
Definition lit (w : string) : regex := word eqc (js w).
Definition liti (w : string) : regex := word eqci (js w).

Definition digit : regex := Chr isDigit.
Definition space : regex := Chr isSpace.
End Regex.
Import Regex.

Declare Scope regex_scope.
Delimit Scope regex_scope with re.
Bind Scope regex_scope with regex.
Infix "<.>" := Seq (at level 61, right associativity) : regex_scope.
Infix "<|>" := Alt (at level 62, right associativity) : regex_scope.

(** ** Numbers *)

Module Number.
Local Open Scope Z_scope.

(** The numbers the service computes with: [NaN], [+Infinity], or a
    finite binary64 value, kept as the rational it denotes. *)
Inductive number : Type :=
| NaN
| Infinity
| Finite (q : Q).

(** [n / d] rounded to the nearest integer, ties to even ([0 < d]). *)
Definition roundHalfEven (n d : Z) : Z :=
  let q := n / d in
  match 2 * (n mod d) ?= d with
  | Lt => q
  | Gt => q + 1
  | Eq => if Z.even q then q else q + 1
  end.

(** [(n / d) / 2 ^ e] as a fraction. *)
Definition scaled (n d e : Z) : Z * Z :=
  if 0 <=? e then (n, d * 2 ^ e) else (n * 2 ^ (- e), d).

(** The integer part of the binary logarithm of [n / d] ([0 < n],
    [0 < d]). *)
Definition ilog2 (n d : Z) : Z :=
  let e := Z.log2 n - Z.log2 d in
  let (a, b) := scaled n d e in
  if a <? b then e - 1 else e.

(** The binary64 value nearest to [n / d] ([0 <= n], [0 < d]), ties to
    even: 53 bits of significand, exponents from -1022 (below which the
    values are subnormal, in steps of [2 ^ -1074]) to 1023. *)
Definition toDouble (n d : Z) : number :=
  if n =? 0 then Finite 0
  else
    let e := Z.max (ilog2 n d) (-1022) in
    let (a, b) := scaled n d (e - 52) in
    let mant := roundHalfEven a b in
    if 0 <=? e - 52
    then if 2 ^ 1024 <=? mant * 2 ^ (e - 52) then Infinity
         else Finite (inject_Z (mant * 2 ^ (e - 52)))
    else Finite (Qred (mant # Z.to_pos (2 ^ (52 - e)))).

Fixpoint span (p : unit16 -> bool) (s : jsstring) : jsstring * jsstring :=
  match s with
  | x :: s' =>
      if p x then let (a, b) := span p s' in (x :: a, b) else ([], s)
  | [] => ([], [])
  end.

Definition digitsValue (ds : jsstring) : Z :=
  fold_left (fun acc x => 10 * acc + (Z.of_N x - 48)) ds 0.

Definition dot : unit16 := 46%N.
Definition comma : unit16 := 44%N.

(** [parseFloat(s)] on a string of digits and dots, the only strings
    the service passes to it (see [cleanAmount_chars]): the longest
    prefix of the form [digits], [digits.digits], [digits.] or
    [.digits] is read as a decimal numeral; there is neither sign nor
    exponent. Without such a prefix the result is [NaN]. *)
Definition parseFloat (s : jsstring) : number :=
  let (int, r) := span isDigit (Str.trimStart s) in
  let frac := match r with
              | x :: r' => if eqc x dot then fst (span isDigit r') else []
              | [] => []
              end in
  match int, frac with
  | [], [] => NaN
  | _, _ => toDouble (digitsValue (int ++ frac)) (10 ^ Z.of_nat (length frac))
  end.

(** [x] in a boolean position: [NaN] and [0] are falsy. *)
Definition truthy (x : number) : bool :=
  match x with
  | NaN => false
  | Infinity => true
  | Finite q => negb (Qeq_bool q 0)
  end.

(** [x > bound] and [x < bound], for a finite [bound]. *)
Definition gt (x : number) (bound : Q) : bool :=
  match x with
  | NaN => false
  | Infinity => true
  | Finite q => negb (Qle_bool q bound)
  end.

Definition lt (x : number) (bound : Q) : bool :=
  match x with
  | NaN => false
  | Infinity => false
  | Finite q => negb (Qle_bool bound q)
  end.
End Number.
Import Number.

(** ** parseReceiptText: the amount *)

Section Patterns.
Local Open Scope regex_scope.

(** [(?:rs\.?|₹)], case-sensitive and under the [i] flag. *)
Definition marker : regex :=
  (lit "rs" <.> Opt (chr "."%char)) <|> Chr (eqc rupee).
Definition markeri : regex :=
  (liti "rs" <.> Opt (chr "."%char)) <|> Chr (eqc rupee).

(** [\d+(?:,\d+)*(?:\.\d{2})?] *)
Definition numberToken : regex :=
  Plus digit <.> Star (chr ","%char <.> Plus digit)
    <.> Opt (chr "."%char <.> digit <.> digit).

(** [[:\s]] *)
Definition colonOrSpace (x : unit16) : bool := eqc x 58%N || isSpace x.

(** The four patterns of [amountPatterns], in the order of the array:
<<
  /(?:total|amount|grand total|net amount|payable)[:\s]*(?:rs\.?|₹)?\s*(\d+(?:,\d+)*(?:\.\d{2})?)/i,
  /(?:rs\.?|₹)\s*(\d+(?:,\d+)*(?:\.\d{2})?)/g,
  /(\d+(?:,\d+)*(?:\.\d{2})?)\s*(?:rs\.?|₹)/g,
  /total[:\s]+(\d+(?:,\d+)*(?:\.\d{2})?)/i
>>
    The second and the third carry the [g] flag and not the [i] flag. *)
Definition labeledTotal : pattern :=
  mkPattern
    ((liti "total" <|> liti "amount" <|> liti "grand total"
        <|> liti "net amount" <|> liti "payable")
       <.> Star (Chr colonOrSpace) <.> Opt markeri <.> Star space
       <.> Group 1 numberToken)
    NoG.

Definition markerLed : pattern :=
  mkPattern (marker <.> Star space <.> Group 1 numberToken) G.

Definition markerTrailed : pattern :=
  mkPattern (Group 1 numberToken <.> Star space <.> marker) G.

Definition bareTotal : pattern :=
  mkPattern
    (liti "total" <.> Plus (Chr colonOrSpace) <.> Group 1 numberToken)
    NoG.

Definition amountPatterns : list pattern :=
  [labeledTotal; markerLed; markerTrailed; bareTotal].
End Patterns.

(** [matches[1] || matches[0]] on a match array that is not [null]:
    element 1 when it is a non-empty string, element 0 otherwise (element
    0 of a match array is always defined, [element_0_defined]). *)
Definition firstGroupOrWhole (matches : matchArray) : jsstring :=
  match element matches 1 with
  | Some (x :: g) => x :: g
  | _ => match element matches 0 with
         | Some w => w
         | None => []
         end
  end.

(** [[^\d.,]] *)
Definition notAmountChar (x : unit16) : bool :=
  negb (isDigit x || eqc x dot || eqc x comma).

(** [.replace(/[^\d.,]/g, '').replace(/,/g, '')] *)
Definition cleanAmount (s : jsstring) : jsstring :=
  removeAll (eqc comma) (removeAll notAmountChar s).

(** [numAmount && numAmount > 0 && numAmount < 100000] *)
Definition reasonable (numAmount : number) : bool :=
  truthy numAmount && gt numAmount 0 && lt numAmount 100000.

(** What one pattern contributes: the number it yields when the pattern
    matches and the number passes the range test. *)
Definition tryPattern (text : jsstring) (p : pattern) : option number :=
  match stringMatch text p with
  | Null => None
  | matches =>
      let extractedAmount := cleanAmount (firstGroupOrWhole matches) in
      let numAmount := parseFloat extractedAmount in
      if reasonable numAmount then Some numAmount else None
  end.

(** The loop over the patterns, left by [break] at the first accepted
    number; [None] is the initial [null]. *)
Fixpoint amountLoop (text : jsstring) (ps : list pattern) : option number :=
  match ps with
  | [] => None
  | p :: ps' =>
      match tryPattern text p with
      | Some numAmount => Some numAmount
      | None => amountLoop text ps'
      end
  end.

Definition extractAmount (text : jsstring) : option number :=
  amountLoop text amountPatterns.

(** ** parseReceiptText, determineCategory, processReceipt *)

(** The record returned by [parseReceiptText]; [None] is [null]. *)
Record parsed (Date : Type) : Type := mkParsed {
  amount : option number;
  merchant : option jsstring;
  date : option Date;
  items : list jsstring;
  rawText : jsstring
}.

(** The [data] object of a successful result. *)
Record data (Date : Type) : Type := mkData {
  d_amount : option number;
  d_category : jsstring;
  d_description : jsstring;
  d_date : option Date;
  d_merchant : option jsstring;
  d_items : list jsstring;
  d_confidence : Z
}.

(** The object [processReceipt] resolves to: [success: true] with [data]
    and [rawData.parsed], or [success: false] with the message of the
    error caught. *)
Inductive outcome (Date : Type) : Type :=
| Success (d : data Date) (raw : parsed Date)
| Failure (error : jsstring).

Arguments Failure {Date} error.

(** What reaches [processReceipt] from outside: [fs.access] or the OCR
    engine throws an error with some message, or the engine returns the
    text it read. *)
Inductive recognition : Type :=
| Threw (message : jsstring)
| Text (extractedText : jsstring).

(** The two errors [processReceipt] throws itself. *)
Definition EmptyInput : jsstring :=
  js "No text could be extracted from the image".
Definition AmountNotFound : jsstring :=
  js "Could not extract amount from receipt".

(** The keyword table, in the order of its declaration, which is the
    order [Object.entries] enumerates it in. *)
Definition categoryMappings : list (jsstring * list jsstring) :=
  [ (js "Food & Dining",
     map js ["restaurant"; "cafe"; "food"; "pizza"; "burger"; "hotel";
             "dhaba"; "canteen"; "mcdonald"; "kfc"; "dominos"; "pizza hut";
             "subway"; "cafe coffee day"; "starbucks"; "chai"; "tea";
             "swiggy"; "zomato"; "uber eats"]%string);
    (js "Transportation",
     map js ["uber"; "ola"; "taxi"; "auto"; "bus"; "metro"; "railway";
             "petrol"; "diesel"; "fuel"; "gas"; "station"; "transport";
             "parking"; "toll"; "rapido"]%string);
    (js "Shopping",
     map js ["mall"; "store"; "shop"; "market"; "bazaar"; "amazon";
             "flipkart"; "myntra"; "clothing"; "fashion"; "shoes";
             "electronics"; "mobile"; "laptop"]%string);
    (js "Healthcare",
     map js ["hospital"; "clinic"; "doctor"; "medical"; "pharmacy";
             "medicine"; "health"; "apollo"; "fortis"; "max"; "aiims";
             "dental"]%string);
    (js "Utilities",
     map js ["electricity"; "water"; "gas"; "internet"; "wifi"; "mobile";
             "phone"; "broadband"; "cable"; "dish"; "airtel"; "jio";
             "vodafone"; "bsnl"]%string);
    (js "Entertainment",
     map js ["movie"; "cinema"; "theatre"; "pvr"; "inox"; "game"; "park";
             "mall"; "netflix"; "amazon prime"; "hotstar"; "spotify";
             "youtube"]%string) ].

Definition Others : jsstring := js "Others".

Section DatePatterns.
Local Open Scope regex_scope.

(** [\d{1,2}] and [\d{2,4}] *)
Definition digits12 : regex := digit <.> Opt digit.
Definition digits24 : regex := digit <.> digit <.> Opt (digit <.> Opt digit).

(** [[-\/]] *)
Definition dashOrSlash (x : unit16) : bool := eqc x 45%N || eqc x 47%N.

Definition numericDate : regex :=
  digits12 <.> Chr dashOrSlash <.> digits12 <.> Chr dashOrSlash <.> digits24.

Definition monthName : regex :=
  liti "jan" <|> liti "feb" <|> liti "mar" <|> liti "apr" <|> liti "may"
    <|> liti "jun" <|> liti "jul" <|> liti "aug" <|> liti "sep"
    <|> liti "oct" <|> liti "nov" <|> liti "dec".

(** The three patterns of [datePatterns]:
<<
  /(\d{1,2}[-\/]\d{1,2}[-\/]\d{2,4})/,
  /(\d{1,2}\s+(?:jan|feb|mar|apr|may|jun|jul|aug|sep|oct|nov|dec)\s+\d{2,4})/i,
  /(?:date|dt)[:\s]*(\d{1,2}[-\/]\d{1,2}[-\/]\d{2,4})/i
>> *)
Definition datePatterns : list pattern :=
  [ mkPattern (Group 1 numericDate) NoG;
    mkPattern
      (Group 1 (digits12 <.> Plus space <.> monthName <.> Plus space
                  <.> digits24))
      NoG;
    mkPattern
      ((liti "date" <|> liti "dt") <.> Star (Chr colonOrSpace)
         <.> Group 1 numericDate)
      NoG ].

(** [\d+(?:\.\d{2})?] *)
Definition price : regex :=
  Plus digit <.> Opt (chr "."%char <.> digit <.> digit).

(** The pattern of a line with a price, under the [i] flag:
<<
  /(\d+(?:\.\d{2})?)\s*(?:rs\.?|₹)|(?:rs\.?|₹)\s*(\d+(?:\.\d{2})?)/i
>> *)
Definition pricedLine : regex :=
  (Group 1 price <.> Star space <.> markeri)
    <|> (markeri <.> Star space <.> Group 2 price).
End DatePatterns.

(** [[\d\s₹rs\.-]] under the [i] flag. *)
Definition itemNoise (x : unit16) : bool :=
  isDigit x || isSpace x || eqc x rupee
  || eqci x 114%N || eqci x 115%N || eqc x dot || eqc x 45%N.

(** The lines of the text: split at line feeds, trimmed, the empty ones
    dropped. *)
Definition linesOf (text : jsstring) : list jsstring :=
  filter (fun line => Nat.ltb 0 (length line))
         (map Str.trim (Str.split newline text)).

(** The items: for each line with a price, the line without the code
    units of [itemNoise], trimmed, when more than two code units remain. *)
Definition itemName (line : jsstring) : jsstring :=
  Str.trim (removeAll itemNoise line).

Fixpoint itemLoop (lines : list jsstring) : list jsstring :=
  match lines with
  | [] => []
  | line :: lines' =>
      if test pricedLine line && Nat.ltb 2 (length (itemName line))
      then itemName line :: itemLoop lines'
      else itemLoop lines'
  end.

Definition extractItems (text : jsstring) : list jsstring :=
  itemLoop (linesOf text).

(** A value of [merchant] in a boolean position: [null] and the empty
    string are falsy. *)
Definition truthyString (s : option jsstring) : bool :=
  match s with
  | Some (_ :: _) => true
  | _ => false
  end.

Definition truthyAmount (a : option number) : bool :=
  match a with
  | Some x => truthy x
  | None => false
  end.

Definition present (A : Type) (o : option A) : bool :=
  match o with Some _ => true | None => false end.

Section Service.

(** The runtime the service calls into and that is not part of it:
    [Date] objects with a valid time value, [new Date(s)] followed by
    the validity test [!isNaN(d.getTime())], the clock read by
    [new Date()], and [String.prototype.toLowerCase]. *)
Variable Date : Type.
Variable newDate : jsstring -> option Date.
Variable now : Date.
Variable toLowerCase : jsstring -> jsstring.

(** *** The date *)

Definition tryDate (text : jsstring) (p : pattern) : option Date :=
  match stringMatch text p with
  | Null => None
  | matches =>
      match element matches 1 with
      | Some dateStr => newDate dateStr
      | None => None
      end
  end.

Fixpoint dateLoop (text : jsstring) (ps : list pattern) : option Date :=
  match ps with
  | [] => None
  | p :: ps' =>
      match tryDate text p with
      | Some parsedDate => Some parsedDate
      | None => dateLoop text ps'
      end
  end.

Definition extractDate (text : jsstring) : option Date :=
  dateLoop text datePatterns.

(** *** The merchant *)

Definition merchantLine (line : jsstring) : bool :=
  Nat.ltb 3 (length line) && Nat.ltb (length line) 50
  && negb (test (Plus digit) line)
  && negb (Str.includes (toLowerCase line) (js "receipt"))
  && negb (Str.includes (toLowerCase line) (js "bill")).

Definition extractMerchant (text : jsstring) : option jsstring :=
  find merchantLine (Str.slice0 5 (linesOf text)).

Definition parseReceiptText (text : jsstring) : parsed Date :=
  {| amount := extractAmount text;
     merchant := extractMerchant text;
     date := extractDate text;
     items := extractItems text;
     rawText := text |}.

(** *** The category *)

Definition searchText (merchant : jsstring) (items : list jsstring)
  : jsstring :=
  toLowerCase (merchant ++ js " " ++ Str.join (js " ") items).

Definition keywordHit (text keyword : jsstring) : bool :=
  Str.includes text (toLowerCase keyword).

(** The two nested loops, left by [return] at the first keyword found. *)
Fixpoint categoryLoop (text : jsstring)
         (table : list (jsstring * list jsstring)) : jsstring :=
  match table with
  | [] => Others
  | (category, keywords) :: table' =>
      if existsb (keywordHit text) keywords then category
      else categoryLoop text table'
  end.

Definition determineCategory (merchant : jsstring) (items : list jsstring)
  : jsstring :=
  categoryLoop (searchText merchant items) categoryMappings.

(** *** The confidence *)

Definition calculateConfidence (p : parsed Date) : Z :=
  let score := 0%Z in
  let score := if truthyAmount (amount p) then (score + 40)%Z else score in
  let score := if truthyString (merchant p) then (score + 30)%Z else score in
  let score := if present (date p) then (score + 20)%Z else score in
  let score := if Nat.ltb 0 (length (items p)) then (score + 10)%Z
               else score in
  Z.min score 100.

(** *** processReceipt *)

(** The description built from the merchant and the first three items. *)
Definition describe (p : parsed Date) : jsstring :=
  let description : jsstring := [] in
  let description :=
    match merchant p with
    | Some (x :: name) => js "Purchase at " ++ x :: name
    | _ => description
    end in
  let description :=
    if Nat.ltb 0 (length (items p))
    then description ++ js " - " ++ Str.join (js ", ") (Str.slice0 3 (items p))
    else description in
  match description with
  | [] => js "Receipt purchase"
  | _ => description
  end.

(** [parsed.date || new Date()]: an object is truthy. *)
Definition orElse (A : Type) (a : option A) (b : A) : A :=
  match a with Some x => x | None => b end.

(** [parsed.merchant || '']: [null] and the empty string are falsy. *)
Definition orEmpty (s : option jsstring) : jsstring :=
  match s with
  | Some (x :: w) => x :: w
  | _ => []
  end.

Definition processReceipt (r : recognition) : outcome Date :=
  match r with
  | Threw message => Failure message
  | Text extractedText =>
      if Nat.eqb (length extractedText) 0
         || Nat.eqb (length (Str.trim extractedText)) 0
      then Failure EmptyInput
      else
        let p := parseReceiptText extractedText in
        if negb (truthyAmount (amount p)) then Failure AmountNotFound
        else
          let category :=
            determineCategory (orEmpty (merchant p)) (items p) in
          Success
            {| d_amount := amount p;
               d_category := category;
               d_description := describe p;
               d_date := Some (orElse (date p) now);
               d_merchant := merchant p;
               d_items := items p;
               d_confidence := calculateConfidence p |}
            p
  end.

End Service.

Arguments orElse {A} a b.

(** ** An instance of the runtime

    A runtime whose [toLowerCase] changes ASCII letters only, whose
    [Date] is a time value in milliseconds and whose date parser accepts
    no string. It is one of the runtimes the statements below range
    over, used to run the service on concrete receipts. *)
Module Runtime.
Definition Date : Type := Z.
Definition newDate (s : jsstring) : option Date := None.
Definition now : Date := 1793491200000%Z.
Definition toLowerCase (s : jsstring) : jsstring := map asciiLower s.

Definition parse := parseReceiptText newDate toLowerCase.
Definition categorize := determineCategory toLowerCase.
Definition process := processReceipt newDate now toLowerCase.
End Runtime.

Definition nl : jsstring := [newline].

(** The (category, keyword) pairs of the table in the order in which the
    two loops of [determineCategory] reach them. *)
Definition keywordPairs : list (jsstring * jsstring) :=
  flat_map (fun entry => map (pair (fst entry)) (snd entry)) categoryMappings.

(** The category enumeration. *)
Definition categories : list jsstring :=
  [js "Food & Dining"; js "Transportation"; js "Shopping"; js "Healthcare";
   js "Utilities"; js "Entertainment"; js "Others"].

(** The points of a record by the presence of its four fields. *)
Definition points (amount merchant date items : bool) : Z :=
  ((if amount then 40 else 0) + (if merchant then 30 else 0)
   + (if date then 20 else 0) + (if items then 10 else 0))%Z.

(** [p] occurs in [s] as a substring. *)
Definition substring (p s : jsstring) : Prop :=
  exists a b, s = a ++ p ++ b.

(** The receipts of the scenarios examined below. *)
Definition subtotalThenTotal : jsstring :=
  js "Subtotal: Rs.100" ++ nl ++ js "Total: Rs.120".

Definition twoMarkerLed : jsstring := js "rs 100" ++ nl ++ js "rs 200".

Definition milk : jsstring := js "Milk rs 50".

(** What the service returns on [milk] with the runtime above. *)
Definition milkParsed : parsed Runtime.Date :=
  {| amount := Some (Finite 50);
     merchant := None;
     date := None;
     items := [js "Milk"];
     rawText := milk |}.

Definition milkData : data Runtime.Date :=
  {| d_amount := Some (Finite 50);
     d_category := Others;
     d_description := js " - Milk";
     d_date := Some Runtime.now;
     d_merchant := None;
     d_items := [js "Milk"];
     d_confidence := 50 |}.

(** ** The language of a pattern

    The words a pattern can match, as a relation: the declarative reading
    of the constructs of [regex]. An iteration of a star matches a
    non-empty word, as in the matcher. *)
Inductive lang : regex -> jsstring -> Prop :=
| L_eps : lang Eps []
| L_chr : forall p x, p x = true -> lang (Chr p) [x]
| L_seq : forall r1 r2 u v,
    lang r1 u -> lang r2 v -> lang (Seq r1 r2) (u ++ v)
| L_alt_l : forall r1 r2 u, lang r1 u -> lang (Alt r1 r2) u
| L_alt_r : forall r1 r2 u, lang r2 u -> lang (Alt r1 r2) u
| L_star_nil : forall r, lang (Star r) []
| L_star_cons : forall r u v,
    lang r u -> u <> [] -> lang (Star r) v -> lang (Star r) (u ++ v)
| L_group : forall i r u, lang r u -> lang (Group i r) u.

(** Every word of the pattern holds a code unit of the class [p]: read
    off the syntax of the pattern. *)
Fixpoint demands (p : unit16 -> bool) (r : regex) : Prop :=
  match r with
  | Eps => False
  | Chr q => forall x, q x = true -> p x = true
  | Seq r1 r2 => demands p r1 \/ demands p r2
  | Alt r1 r2 => demands p r1 /\ demands p r2
  | Star _ => False
  | Group _ r1 => demands p r1
  end.

(** The code units one of which every match of an amount pattern holds:
    the letter a in either case (each keyword has one), the lower-case
    r of the case-sensitive marker, and the rupee sign. *)
Definition amountCue (x : unit16) : bool :=
  eqci 97%N x || eqc 114%N x || eqc rupee x.

Definition isLowerLetter (c : unit16) : bool :=
  N.leb 97 c && N.leb c 122.

(** The three date patterns by name: [datePatterns] is
    [[slashDate; monthNameDate; labeledDate]]. *)
Definition slashDate : pattern := mkPattern (Group 1 numericDate) NoG.

Definition monthNameDate : pattern :=
  mkPattern
    (Group 1 (Seq digits12 (Seq (Plus space) (Seq monthName
                 (Seq (Plus space) digits24)))))
    NoG.

Definition labeledDate : pattern :=
  mkPattern
    (Seq (Alt (liti "date") (liti "dt"))
         (Seq (Star (Chr colonOrSpace)) (Group 1 numericDate)))
    NoG.

(** The code units one of which every match of a marker pattern holds:
    the lower-case r and the rupee sign. *)
Definition markerCue (x : unit16) : bool := eqc 114%N x || eqc rupee x.

(** The table without the six keywords that another keyword, met
    earlier by the loops, is a substring of: "pizza hut" (after "pizza"),
    "cafe coffee day" (after "cafe"), "gas" and "mobile" of Utilities
    (after those of Transportation and Shopping), "mall" and
    "amazon prime" of Entertainment (after "mall" and "amazon" of
    Shopping). *)
Definition liveMappings : list (jsstring * list jsstring) :=
  [ (js "Food & Dining",
     map js ["restaurant"; "cafe"; "food"; "pizza"; "burger"; "hotel";
             "dhaba"; "canteen"; "mcdonald"; "kfc"; "dominos";
             "subway"; "starbucks"; "chai"; "tea";
             "swiggy"; "zomato"; "uber eats"]%string);
    (js "Transportation",
     map js ["uber"; "ola"; "taxi"; "auto"; "bus"; "metro"; "railway";
             "petrol"; "diesel"; "fuel"; "gas"; "station"; "transport";
             "parking"; "toll"; "rapido"]%string);
    (js "Shopping",
     map js ["mall"; "store"; "shop"; "market"; "bazaar"; "amazon";
             "flipkart"; "myntra"; "clothing"; "fashion"; "shoes";
             "electronics"; "mobile"; "laptop"]%string);
    (js "Healthcare",
     map js ["hospital"; "clinic"; "doctor"; "medical"; "pharmacy";
             "medicine"; "health"; "apollo"; "fortis"; "max"; "aiims";
             "dental"]%string);
    (js "Utilities",
     map js ["electricity"; "water"; "internet"; "wifi";
             "phone"; "broadband"; "cable"; "dish"; "airtel"; "jio";
             "vodafone"; "bsnl"]%string);
    (js "Entertainment",
     map js ["movie"; "cinema"; "theatre"; "pvr"; "inox"; "game"; "park";
             "netflix"; "hotstar"; "spotify";
             "youtube"]%string) ].

(** The pairs of a list that no pair met before them makes useless: a
    pair is dropped when the keyword of a pair already seen occurs in its
    keyword. *)
Fixpoint prune (seen l : list (jsstring * jsstring))
  : list (jsstring * jsstring) :=
  match l with
  | [] => []
  | x :: l' =>
      if existsb (fun y => Str.includes (snd x) (snd y)) seen
      then prune (seen ++ [x]) l'
      else x :: prune (seen ++ [x]) l'
  end.

(** The values of [category] that the Transaction schema accepts (the
    validator of the transaction routes has the same list). *)
Definition schemaCategories : list jsstring :=
  map js ["Food & Dining"; "Transportation"; "Shopping"; "Entertainment";
          "Healthcare"; "Utilities"; "Education"; "Travel"; "Salary";
          "Business"; "Investment"; "Others"]%string.

(** ** The callers of processReceipt *)

(** The file multer hands to a handler: [req.file.path] and
    [req.file.filename]. *)
Record upload : Type := mkUpload {
  u_path : jsstring;
  u_filename : jsstring
}.

(** *** uploadReceipt (controllers/receiptController.js) *)

(** [transactionData]: the spread of [ocrResult.data] between [receiptId],
    [receiptUrl] and [type], [isFromReceipt]; no key of [data] is one of
    these four. *)
Record transactionData (Date : Type) : Type := mkTransactionData {
  td_receiptId : jsstring;
  td_receiptUrl : jsstring;
  td_data : data Date;
  td_type : jsstring;
  td_isFromReceipt : bool
}.

Record suggestions (Date : Type) : Type := mkSuggestions {
  sg_amount : option number;
  sg_category : jsstring;
  sg_description : jsstring;
  sg_date : option Date
}.

(** What the handler answers: a status with [success: false], a message
    and possibly details, or the body of the answer with
    [success: true]. *)
Inductive uploadReply (Date : Type) : Type :=
| Rejected (status : Z) (message : jsstring) (details : option jsstring)
| Accepted (receiptId receiptUrl : jsstring)
           (extractedData : transactionData Date)
           (confidence : Z) (suggested : suggestions Date).

Arguments Rejected {Date} status message details.

(** *** The upload route (routes/receipts.js)

    The route reads properties of the object [processReceipt] resolves
    to, so the object is given here with its property names. *)
Local Unset Elimination Schemes.
Inductive value (Date : Type) : Type :=
| VUndefined
| VNull
| VBool (b : bool)
| VNum (n : number)
| VStr (s : jsstring)
| VDate (d : Date)
| VArr (xs : list (value Date))
| VObj (fields : list (string * value Date)).
Local Set Elimination Schemes.

Arguments VUndefined {Date}.
Arguments VNull {Date}.
Arguments VBool {Date} b.
Arguments VNum {Date} n.
Arguments VStr {Date} s.

(** [o.key] on the properties of an object: [undefined] for a name the
    object does not have. *)
Definition lookup (Date : Type) (fields : list (string * value Date))
           (key : string) : value Date :=
  match find (fun f => String.eqb (fst f) key) fields with
  | Some f => snd f
  | None => VUndefined
  end.

(** A value in a boolean position. *)
Definition truthyV (Date : Type) (v : value Date) : bool :=
  match v with
  | VUndefined => false
  | VNull => false
  | VBool b => b
  | VNum n => truthy n
  | VStr s => Nat.ltb 0 (length s)
  | VDate _ => true
  | VArr _ => true
  | VObj _ => true
  end.

(** [a || b] *)
Definition orV (Date : Type) (a b : value Date) : value Date :=
  if truthyV a then a else b.

Definition ofOption (Date A : Type) (f : A -> value Date) (o : option A)
  : value Date :=
  match o with Some x => f x | None => VNull end.

(** The object literals of [processReceipt]: [data], [parsed] and the two
    results. *)
Definition dataFields (Date : Type) (d : data Date)
  : list (string * value Date) :=
  [ ("amount", ofOption VNum (d_amount d));
    ("category", VStr (d_category d));
    ("description", VStr (d_description d));
    ("date", ofOption (@VDate Date) (d_date d));
    ("merchant", ofOption VStr (d_merchant d));
    ("items", VArr (map VStr (d_items d)));
    ("confidence", VNum (Finite (inject_Z (d_confidence d)))) ]%string.

Definition parsedFields (Date : Type) (p : parsed Date)
  : list (string * value Date) :=
  [ ("amount", ofOption VNum (amount p));
    ("merchant", ofOption VStr (merchant p));
    ("date", ofOption (@VDate Date) (date p));
    ("items", VArr (map VStr (items p)));
    ("rawText", VStr (rawText p)) ]%string.

Definition resultFields (Date : Type) (o : outcome Date)
  : list (string * value Date) :=
  match o with
  | Success d raw =>
      [ ("success", VBool true);
        ("data", VObj (dataFields d));
        ("rawData", VObj [ ("extractedText", VStr (rawText raw));
                           ("parsed", VObj (parsedFields raw)) ]) ]%string
  | Failure error =>
      [ ("success", VBool false);
        ("error", VStr error);
        ("data", VNull) ]%string
  end.

(** What the route does: its answer, the documents it saved and the
    files it unlinked. *)
Record routeResult (Date : Type) : Type := mkRouteResult {
  rr_status : Z;
  rr_body : value Date;
  rr_saved : list (value Date);
  rr_unlinked : list jsstring
}.

Section Callers.

Variable Date : Type.
Variable newDate : jsstring -> option Date.
Variable now : Date.
Variable toLowerCase : jsstring -> jsstring.

(** The world around the handlers: what file access and the OCR engine
    give for a path, the identifier [uuidv4()] returns, the coercions of
    the runtime to a number and to a string, the identifier of the user
    and the outcome of [transaction.save()] ([Some message] is a thrown
    error). *)
Variable recognize : jsstring -> recognition.
Variable toNumberV : value Date -> number.
Variable toStringV : value Date -> jsstring.
Variable userId : value Date.
Variable save : value Date -> option jsstring.

(** [uploadReceipt]: the answer and the paths handed to [cleanupFile].
    Nothing in its [try] block throws here ([processReceipt] and
    [cleanupFile] catch their own errors), so the [catch] block with
    status 500 is not reached. *)
Definition uploadReceipt (file : option upload) (receiptId : jsstring)
  : uploadReply Date * list jsstring :=
  match file with
  | None => (Rejected 400 (js "No file uploaded") None, [])
  | Some f =>
      let filePath := u_path f in
      let fileUrl := js "/uploads/receipts/" ++ u_filename f in
      match processReceipt newDate now toLowerCase (recognize filePath) with
      | Failure error =>
          (Rejected 400
             (match error with
              | [] => js "Failed to process receipt"
              | _ => error
              end)
             (Some (js "Could not extract transaction data from the uploaded receipt")),
           [filePath])
      | Success d _ =>
          (Accepted receiptId fileUrl
             {| td_receiptId := receiptId;
                td_receiptUrl := fileUrl;
                td_data := d;
                td_type := js "expense";
                td_isFromReceipt := true |}
             (d_confidence d)
             {| sg_amount := d_amount d;
                sg_category := d_category d;
                sg_description := d_description d;
                sg_date := d_date d |},
           [])
      end
  end.

(** The handler of [POST /upload]. The only call of its [try] block that
    can throw is [transaction.save()]; the [catch] block unlinks the
    file and answers 400 or 500 by the message of the error. *)
Definition uploadRoute (file : option upload) : routeResult Date :=
  match file with
  | None =>
      {| rr_status := 400;
         rr_body := VObj [ ("success", VBool false);
                           ("message", VStr (js "No file uploaded")) ]%string;
         rr_saved := [];
         rr_unlinked := [] |}
  | Some f =>
      let filePath := u_path f in
      let fileName := u_filename f in
      let fileUrl := js "/uploads/" ++ fileName in
      let extractedData :=
        resultFields
          (processReceipt newDate now toLowerCase (recognize filePath)) in
      let answer (transaction : value Date) :=
        VObj [ ("success", VBool true);
               ("message", VStr (js "Receipt processed successfully"));
               ("data", VObj [ ("extractedData", VObj extractedData);
                               ("transaction", transaction);
                               ("fileUrl", VStr fileUrl);
                               ("fileName", VStr fileName) ]) ]%string in
      if truthyV (lookup extractedData "amount")
         && gt (toNumberV (lookup extractedData "amount")) 0
      then
        let transaction :=
          VObj [ ("userId", userId);
                 ("type", VStr (js "expense"));
                 ("amount", lookup extractedData "amount");
                 ("category",
                  orV (lookup extractedData "category") (VStr (js "Others")));
                 ("description",
                  orV (lookup extractedData "description")
                      (VStr (js "Receipt from "
                               ++ toStringV
                                    (orV (lookup extractedData "merchant")
                                         (VStr (js "Unknown"))))%list));
                 ("date", orV (lookup extractedData "date") (VDate now));
                 ("receiptId", VStr fileName);
                 ("receiptUrl", VStr fileUrl);
                 ("isFromReceipt", VBool true) ]%string in
        match save transaction with
        | None =>
            {| rr_status := 200;
               rr_body := answer transaction;
               rr_saved := [transaction];
               rr_unlinked := [] |}
        | Some message =>
            if Str.includes message (js "Only JPEG, PNG")
            then {| rr_status := 400;
                    rr_body := VObj [ ("success", VBool false);
                                      ("message", VStr message) ]%string;
                    rr_saved := [];
                    rr_unlinked := [filePath] |}
            else {| rr_status := 500;
                    rr_body :=
                      VObj [ ("success", VBool false);
                             ("message",
                              VStr (js "Failed to process receipt")) ]%string;
                    rr_saved := [];
                    rr_unlinked := [filePath] |}
        end
      else
        {| rr_status := 200;
           rr_body := answer VNull;
           rr_saved := [];
           rr_unlinked := [] |}
  end.

End Callers.

(** *** fileFilter (controllers/receiptController.js) *)

(** [/jpeg|jpg|png|pdf/] *)
Definition allowedTypes : regex :=
  Alt (lit "jpeg") (Alt (lit "jpg") (Alt (lit "png") (lit "pdf"))).

Definition allowedWords : list jsstring :=
  [js "jpeg"; js "jpg"; js "png"; js "pdf"].

Section FileFilter.

(** [String.prototype.toLowerCase] and [path.extname] of Node. *)
Variable toLowerCase : jsstring -> jsstring.
Variable extname : jsstring -> jsstring.

(** [true] is [cb(null, true)], [false] is the error "Only image files
    (JPEG, JPG, PNG) and PDF files are allowed". *)
Definition fileFilter (originalname mimetype : jsstring) : bool :=
  let extname := test allowedTypes (toLowerCase (extname originalname)) in
  let mimetype := test allowedTypes mimetype in
  mimetype && extname.

End FileFilter.

(** *** The pagination of the transaction routes (routes/transactions.js) *)

(** The numbers of the handler with their sign: [parseInt] gives
    negative numbers, [-0] and [-Infinity] as well as [NaN]. A finite
    number is kept as its sign and the non-negative rational that is its
    magnitude. *)
Inductive double : Type :=
| DNaN
| DInf (negative : bool)
| DFin (negative : bool) (magnitude : Q).

(** The binary64 value nearest to [n / d] ([0 <= n], [0 < d]), with the
    sign given. *)
Definition rounded (negative : bool) (n d : Z) : double :=
  match toDouble n d with
  | NaN => DNaN
  | Infinity => DInf negative
  | Finite q => DFin negative q
  end.

(** The number of an integer. *)
Definition ofZ (z : Z) : double := rounded (z <? 0)%Z (Z.abs z) 1.

Definition isZero (magnitude : Q) : bool := (Qnum magnitude =? 0)%Z.

(** The rational a finite number denotes. *)
Definition valueOf (negative : bool) (magnitude : Q) : Q :=
  if negative then Qopp magnitude else magnitude.

(** [x - 1]: the difference is rounded, and [1 - 1] is [+0]. *)
Definition minusOne (x : double) : double :=
  match x with
  | DFin negative magnitude =>
      let v := Qminus (valueOf negative magnitude) 1 in
      match (Qnum v ?= 0)%Z with
      | Eq => DFin false 0
      | Gt => rounded false (Qnum v) (QDen v)
      | Lt => rounded true (- Qnum v) (QDen v)
      end
  | _ => x
  end.

(** [x * y]: [Infinity * 0] is [NaN], and the sign of the product is the
    product of the signs, also when it is zero. *)
Definition times (x y : double) : double :=
  match x, y with
  | DNaN, _ | _, DNaN => DNaN
  | DInf s, DInf t => DInf (xorb s t)
  | DInf s, DFin t m | DFin s m, DInf t =>
      if isZero m then DNaN else DInf (xorb s t)
  | DFin s m, DFin t n =>
      rounded (xorb s t) (Qnum m * Qnum n) (QDen m * QDen n)
  end.

(** [x / y]: [0 / 0] and [Infinity / Infinity] are [NaN], a number that
    is not zero divided by zero is an infinity. *)
Definition dividedBy (x y : double) : double :=
  match x, y with
  | DNaN, _ | _, DNaN => DNaN
  | DInf _, DInf _ => DNaN
  | DInf s, DFin t _ => DInf (xorb s t)
  | DFin s _, DInf t => DFin (xorb s t) 0
  | DFin s m, DFin t n =>
      if isZero n then if isZero m then DNaN else DInf (xorb s t)
      else rounded (xorb s t) (Qnum m * QDen n) (QDen m * Qnum n)
  end.

(** [Math.ceil]: the ceiling of a negative number has the floor of its
    magnitude, and keeps the sign when it is zero. *)
Definition mathCeil (x : double) : double :=
  match x with
  | DFin false m => DFin false (inject_Z (Qceiling m))
  | DFin true m => DFin true (inject_Z (Qfloor m))
  | _ => x
  end.

(** [x < y]: false when one of them is [NaN]; [-0] and [+0] are
    equal. *)
Definition lessThan (x y : double) : bool :=
  match x, y with
  | DNaN, _ | _, DNaN => false
  | DInf s, DInf t => s && negb t
  | DInf s, DFin _ _ => s
  | DFin _ _, DInf t => negb t
  | DFin s m, DFin t n => negb (Qle_bool (valueOf t n) (valueOf s m))
  end.

(** The [pagination] object of [GET /] and the number passed to [skip],
    as the handler computes them when the two queries succeed.
    [pageNum] and [limitNum] are [parseInt(page)] and [parseInt(limit)],
    which the handler takes as they come, and [total] is the number of
    documents that [countDocuments] counts. *)
Record pagination : Type := mkPagination {
  skip : double;
  currentPage : double;
  totalPages : double;
  totalItems : double;
  itemsPerPage : double;
  hasNext : bool;
  hasPrev : bool
}.

Definition paginate (pageNum limitNum total : double) : pagination :=
  let skip := times (minusOne pageNum) limitNum in
  let totalPages := mathCeil (dividedBy total limitNum) in
  {| skip := skip;
     currentPage := pageNum;
     totalPages := totalPages;
     totalItems := total;
     itemsPerPage := limitNum;
     hasNext := lessThan pageNum totalPages;
     hasPrev := lessThan (ofZ 1) pageNum |}.

(** * Properties *)

Unset Implicit Arguments.

(** Boolean tests in the hypotheses, as propositions. *)
Ltac bool_hyps :=
  repeat match goal with
         | H : _ && _ = true |- _ => apply andb_true_iff in H; destruct H
         | H : _ || _ = false |- _ => apply orb_false_iff in H; destruct H
         | H : negb _ = true |- _ => apply negb_true_iff in H
         | H : negb _ = false |- _ => apply negb_false_iff in H
         | H : Nat.ltb _ _ = true |- _ => apply Nat.ltb_lt in H
         end.

(** ** The runtime model *)

Lemma trimStart_incl : forall s x, In x (Str.trimStart s) -> In x s.
Proof.
  induction s as [|c s IH]; simpl; intros x H; [assumption|].
  destruct (isSpace c); [right; auto | assumption].
Qed.

Lemma trim_incl : forall s x, In x (Str.trim s) -> In x s.
Proof.
  unfold Str.trim, Str.trimEnd. intros s x H.
  apply trimStart_incl. apply in_rev in H.
  apply trimStart_incl in H. now apply in_rev.
Qed.

Lemma removeAll_spec : forall cls s x,
  In x (removeAll cls s) <-> In x s /\ cls x = false.
Proof.
  unfold removeAll. intros cls s x. rewrite filter_In.
  now rewrite negb_true_iff.
Qed.

Lemma startsWith_spec : forall p s,
  Str.startsWith p s = true <-> exists b, s = p ++ b.
Proof.
  induction p as [|a p IH]; intros s; simpl.
  - split; [intros _; now exists s | reflexivity].
  - destruct s as [|c s].
    + split; [discriminate | intros [b H]; discriminate].
    + rewrite andb_true_iff, IH. unfold eqc. rewrite N.eqb_eq. split.
      * intros [-> [b ->]]. now exists b.
      * intros [b H]. inversion H; subst. split; [reflexivity | now exists b].
Qed.

Lemma includes_unfold : forall s p,
  Str.includes s p =
  Str.startsWith p s
  || match s with [] => false | _ :: s' => Str.includes s' p end.
Proof. intros [|c s] p; reflexivity. Qed.

(** [includes] decides the occurrence as a substring. *)
Lemma includes_spec : forall s p,
  Str.includes s p = true <-> substring p s.
Proof.
  unfold substring. induction s as [|c s IH]; intros p;
    rewrite includes_unfold, orb_true_iff, startsWith_spec.
  - split.
    + intros [[b H]|H]; [|discriminate]. now exists [], b.
    + intros (a & b & H). left. destruct a; [|discriminate]. now exists b.
  - rewrite IH. split.
    + intros [[b H]|(a & b & H)].
      * now exists [], b.
      * exists (c :: a), b. simpl. now rewrite H.
    + intros (a & b & H). destruct a as [|x a].
      * left. now exists b.
      * right. inversion H; subst. now exists a, b.
Qed.


Lemma find_split : forall (A : Type) (f : A -> bool) l x,
  find f l = Some x ->
  exists pre post, l = pre ++ x :: post /\ f x = true
                   /\ forall y, In y pre -> f y = false.
Proof.
  induction l as [|a l IH]; simpl; intros x H; [discriminate|].
  destruct (f a) eqn:E.
  - inversion H; subst. exists [], l. simpl. tauto.
  - destruct (IH x H) as (pre & post & -> & Hx & Hpre).
    exists (a :: pre), post. simpl. repeat split; auto.
    intros y [<-|Hy]; auto.
Qed.

(** *** The matcher *)

(** The matcher hands to its continuation a suffix of its input. *)
Lemma m_suffix : forall (R : Type) r s c (k : jsstring -> captures -> option R) x,
  m r s c k = Some x ->
  exists pre s' c', s = pre ++ s' /\ k s' c' = Some x.
Proof.
  intros R. induction r as [|p|r1 IH1 r2 IH2|r1 IH1 r2 IH2|r1 IH1|i r1 IH1];
    intros s c k x H; simpl in H.
  - now exists [], s, c.
  - destruct s as [|a s]; [discriminate|].
    destruct (p a); [|discriminate]. now exists [a], s, c.
  - apply IH1 in H. destruct H as (pre1 & s1 & c1 & -> & H).
    apply IH2 in H. destruct H as (pre2 & s2 & c2 & -> & H).
    exists (pre1 ++ pre2), s2, c2. now rewrite app_assoc.
  - destruct (m r1 s c k) eqn:E.
    + inversion H; subst. now apply IH1 in E.
    + now apply IH2 in H.
  - remember (length s) as n eqn:Hn. clear Hn.
    revert s c H. induction n as [|n IHn]; intros s c H.
    + now exists [], s, c.
    + match type of H with
      | match ?e with _ => _ end = _ => destruct e eqn:E
      end.
      * inversion H; subst. apply IH1 in E.
        destruct E as (pre1 & s1 & c1 & -> & E).
        destruct (Nat.ltb (length s1) (length (pre1 ++ s1)));
          [|discriminate].
        apply IHn in E. destruct E as (pre2 & s2 & c2 & -> & E).
        exists (pre1 ++ pre2), s2, c2. now rewrite app_assoc.
      * now exists [], s, c.
  - apply IH1 in H. destruct H as (pre & s' & c' & -> & H). eauto.
Qed.

(** A match splits the input into the text matched and the rest. *)
Lemma matchAt_split : forall r s res,
  matchAt r s = Some res -> s = whole res ++ rest res.
Proof.
  unfold matchAt. intros r s res H. apply m_suffix in H.
  destruct H as (pre & s' & c' & -> & H). inversion H; subst; simpl.
  rewrite length_app, Nat.add_sub.
  now rewrite firstn_app, Nat.sub_diag, firstn_all, app_nil_r.
Qed.

(** [exec] finds its match inside the input. *)
Lemma exec_split : forall r s res,
  exec r s = Some res -> exists pre, s = pre ++ whole res ++ rest res.
Proof.
  intros r. induction s as [|a s IH]; intros res H; simpl in H.
  - destruct (matchAt r []) eqn:E; [|discriminate].
    inversion H; subst. exists []. now apply (matchAt_split r).
  - destruct (matchAt r (a :: s)) eqn:E.
    + inversion H; subst. exists []. now apply (matchAt_split r).
    + apply IH in H. destruct H as [pre H]. exists (a :: pre).
      simpl. now rewrite <- H.
Qed.

(** Element 0 of a match array is defined. *)
Lemma element_0_defined : forall s p,
  stringMatch s p <> Null -> element (stringMatch s p) 0 <> None.
Proof.
  intros s p. unfold stringMatch.
  destruct (global p).
  - destruct (exec (body p) s); simpl; congruence.
  - destruct (execAll (S (length s)) (body p) s); simpl; congruence.
Qed.

(** [parseFloat] only sees digits and dots. *)
Lemma cleanAmount_chars : forall s x,
  In x (cleanAmount s) -> isDigit x = true \/ x = dot.
Proof.
  unfold cleanAmount. intros s x H.
  apply removeAll_spec in H. destruct H as [H Hc].
  apply removeAll_spec in H. destruct H as [_ H].
  unfold notAmountChar in H. apply negb_false_iff in H.
  apply orb_true_iff in H. destruct H as [H|H].
  - apply orb_true_iff in H. destruct H as [H|H]; [now left|].
    right. unfold eqc in H. now apply N.eqb_eq in H.
  - unfold eqc in H, Hc. apply N.eqb_eq in H. subst x.
    rewrite N.eqb_refl in Hc. discriminate.
Qed.

(** ** The amount *)

Lemma reasonable_truthy : forall x, reasonable x = true -> truthy x = true.
Proof.
  unfold reasonable. intros x H. bool_hyps. assumption.
Qed.

Lemma reasonable_bounds : forall x,
  reasonable x = true -> exists q, x = Finite q /\ (0 < q)%Q /\ (q < 100000)%Q.
Proof.
  unfold reasonable. intros [| |q] H; simpl in H; try discriminate.
  bool_hyps.
  exists q. split; [reflexivity|]. split; apply Qnot_le_lt; intro Hle;
    apply Qle_bool_iff in Hle; congruence.
Qed.

Lemma tryPattern_reasonable : forall text p x,
  tryPattern text p = Some x -> reasonable x = true.
Proof.
  unfold tryPattern. intros text p x.
  destruct (stringMatch text p); try discriminate;
    match goal with
    | |- context [reasonable ?n] => destruct (reasonable n) eqn:E
    end; congruence.
Qed.

Lemma amountLoop_reasonable : forall text ps x,
  amountLoop text ps = Some x -> reasonable x = true.
Proof.
  induction ps as [|p ps IH]; simpl; intros x H; [discriminate|].
  destruct (tryPattern text p) eqn:E; [|auto].
  inversion H; subst. eapply tryPattern_reasonable; eauto.
Qed.

Lemma extractAmount_reasonable : forall text x,
  extractAmount text = Some x -> reasonable x = true.
Proof. intros text x. apply amountLoop_reasonable. Qed.

(** An extracted amount is truthy: [!parsed.amount] holds exactly when
    no amount was extracted. *)
Lemma truthyAmount_extract : forall text,
  truthyAmount (extractAmount text) = present (extractAmount text).
Proof.
  intros text. destruct (extractAmount text) as [x|] eqn:E; simpl; auto.
  apply reasonable_truthy. eapply extractAmount_reasonable; eauto.
Qed.

(** On [subtotalThenTotal] the labelled-total pattern matches first inside
    the word "Subtotal". *)
Lemma subtotalThenTotal_match :
  stringMatch subtotalThenTotal labeledTotal =
  First {| whole := js "total: Rs.100";
           groups := [(1%nat, js "100")];
           rest := nl ++ js "Total: Rs.120" |}.
Proof. vm_compute. reflexivity. Qed.

(** C3, as stated, fails: on the line "Subtotal: Rs.100" followed by the
    line "Total: Rs.120" the amount extractor does not return 120. *)
Lemma subtotalThenTotal_not_120 :
  extractAmount subtotalThenTotal <> Some (Finite 120).
Proof. vm_compute. discriminate. Qed.

(** C3, amended: on the line "Subtotal: Rs.100" followed by the line
    "Total: Rs.120" the amount extractor returns 100. The labelled-total
    pattern is searched for anywhere in the text, the keyword "total"
    occurs inside "Subtotal", and the leftmost match is the one taken:
    its capture group is "100". *)
Theorem subtotalThenTotal_amount :
  extractAmount subtotalThenTotal = Some (Finite 100)
  /\ tryPattern subtotalThenTotal labeledTotal = Some (Finite 100)
  /\ element (stringMatch subtotalThenTotal labeledTotal) 0
     = Some (js "total: Rs.100")
  /\ element (stringMatch subtotalThenTotal labeledTotal) 1
     = Some (js "100").
Proof. vm_compute. repeat split; reflexivity. Qed.

(** C7 at the receipt "rs 100" / "rs 200": the labelled-total pattern does
    not match, the marker-led pattern matches twice, "rs 100" first, and
    the amount extracted is 200, the value of the second match: with the
    [g] flag the match array holds the whole matches, so [matches[1]] is
    the second of them. *)
Theorem twoMarkerLed_amount :
  tryPattern twoMarkerLed labeledTotal = None
  /\ stringMatch twoMarkerLed markerLed
     = AllMatches [js "rs 100"; js "rs 200"]
  /\ firstGroupOrWhole (stringMatch twoMarkerLed markerLed) = js "rs 200"
  /\ extractAmount twoMarkerLed = Some (Finite 200).
Proof. vm_compute. repeat split; reflexivity. Qed.

(** With the [g] flag and two matches or more, the candidate of a pattern
    is its second match. *)
Lemma global_second_match : forall text p first second others,
  stringMatch text p = AllMatches (first :: second :: others) ->
  second <> [] ->
  tryPattern text p =
  if reasonable (parseFloat (cleanAmount second))
  then Some (parseFloat (cleanAmount second)) else None.
Proof.
  intros text p first second others H Hne. unfold tryPattern. rewrite H.
  unfold firstGroupOrWhole. simpl.
  destruct second; [contradiction | reflexivity].
Qed.

(** With one marker-led match the whole match is cleaned, the dot of
    "rs." included: "rs.100" is read as [.100]. *)
Example markerLed_dot :
  extractAmount (js "rs.100")
  = Some (Finite (3602879701896397 # 36028797018963968)).
Proof. vm_compute. reflexivity. Qed.

(** ** The items *)

Lemma itemLoop_spec : forall lines it,
  In it (itemLoop lines) ->
  exists line, In line lines /\ test pricedLine line = true
               /\ it = itemName line /\ 2 < length it.
Proof.
  induction lines as [|line lines IH]; simpl; intros it H; [contradiction|].
  destruct (test pricedLine line && Nat.ltb 2 (length (itemName line)))
    eqn:E.
  - destruct H as [H|H].
    + bool_hyps. subst it. exists line. auto.
    + destruct (IH it H) as (l & Hl & Hrest). exists l. auto.
  - destruct (IH it H) as (l & Hl & Hrest). exists l. auto.
Qed.

Lemma itemNoise_false : forall x,
  itemNoise x = false ->
  isDigit x = false /\ isSpace x = false /\ x <> rupee /\ x <> dot
  /\ x <> 45%N /\ x <> 114%N /\ x <> 82%N /\ x <> 115%N /\ x <> 83%N.
Proof.
  unfold itemNoise. intros x H. bool_hyps.
  repeat split; auto; intro; subst x; discriminate.
Qed.

(** Trimming a string without white space leaves it as it is. *)
Lemma trimStart_nospace : forall s,
  (forall x, In x s -> isSpace x = false) -> Str.trimStart s = s.
Proof.
  intros [|c s] H; simpl; [reflexivity|].
  now rewrite (H c (or_introl eq_refl)).
Qed.

Lemma trim_nospace : forall s,
  (forall x, In x s -> isSpace x = false) -> Str.trim s = s.
Proof.
  intros s H. unfold Str.trim, Str.trimEnd.
  rewrite (trimStart_nospace s H).
  rewrite trimStart_nospace; [apply rev_involutive|].
  intros x Hx. apply H. now apply in_rev.
Qed.

Lemma itemName_filter : forall line,
  itemName line = filter (fun x => negb (itemNoise x)) line.
Proof.
  intros line. unfold itemName. apply trim_nospace.
  intros x Hx. apply removeAll_spec in Hx. destruct Hx as [_ Hx].
  now apply itemNoise_false in Hx.
Qed.

(** C9: every string of the item list has at least 3 code units and
    holds no digit, no white space and none of U+20B9, '.', '-', 'r',
    'R', 's', 'S'; it is a line of the text from which every such code
    unit was removed, wherever it stood in the line. *)
Theorem items_cleaned : forall text it,
  In it (extractItems text) ->
  3 <= length it
  /\ (forall x, In x it ->
        isDigit x = false /\ isSpace x = false /\ x <> rupee
        /\ x <> N_of_ascii "." /\ x <> N_of_ascii "-"
        /\ x <> N_of_ascii "r" /\ x <> N_of_ascii "R"
        /\ x <> N_of_ascii "s" /\ x <> N_of_ascii "S")
  /\ exists line, In line (linesOf text)
                  /\ it = filter (fun x => negb (itemNoise x)) line.
Proof.
  intros text it H. unfold extractItems in H.
  apply itemLoop_spec in H. destruct H as (line & Hin & _ & Heq & Hlen).
  split; [lia|]. split.
  - intros x Hx. subst it. rewrite itemName_filter in Hx.
    apply filter_In in Hx. destruct Hx as [_ Hx].
    apply negb_true_iff in Hx. now apply itemNoise_false.
  - exists line. split; [assumption|]. subst it. apply itemName_filter.
Qed.

(** The item of the line "Sugar - 45.00 rs" is "uga". *)
Lemma items_cleaned_witness :
  In (js "uga") (extractItems (js "Sugar - 45.00 rs"))
  /\ 3 <= length (js "uga")
  /\ (forall x, In x (js "uga") ->
        isDigit x = false /\ isSpace x = false /\ x <> rupee
        /\ x <> N_of_ascii "." /\ x <> N_of_ascii "-"
        /\ x <> N_of_ascii "r" /\ x <> N_of_ascii "R"
        /\ x <> N_of_ascii "s" /\ x <> N_of_ascii "S")
  /\ exists line, In line (linesOf (js "Sugar - 45.00 rs"))
                  /\ js "uga" = filter (fun x => negb (itemNoise x)) line.
Proof.
  assert (H : In (js "uga") (extractItems (js "Sugar - 45.00 rs")))
    by (vm_compute; left; reflexivity).
  split; [exact H|].
  exact (items_cleaned (js "Sugar - 45.00 rs") (js "uga") H).
Defined.

(** ** The keyword table *)

Lemma keywordPairs_in : forall category keyword,
  In (category, keyword) keywordPairs <->
  exists keywords, In (category, keywords) categoryMappings
                   /\ In keyword keywords.
Proof.
  intros category keyword. unfold keywordPairs. rewrite in_flat_map.
  split.
  - intros ([c kws] & Hin & Hk). simpl in Hk. apply in_map_iff in Hk.
    destruct Hk as (kw & Heq & Hkw). inversion Heq; subst. eauto.
  - intros (kws & Hin & Hk). exists (category, kws). split; [assumption|].
    simpl. now apply in_map.
Qed.

Lemma category_named : forall category keyword,
  In (category, keyword) keywordPairs ->
  In category categories /\ category <> Others.
Proof.
  intros category keyword Hin. apply keywordPairs_in in Hin.
  destruct Hin as (kws & Hin & _). apply (in_map fst) in Hin.
  simpl in Hin.
  repeat (destruct Hin as [<-|Hin];
          [split; [vm_compute; auto 10 | discriminate]|]).
  contradiction.
Qed.

(** ** Substrings and ASCII strings *)

Lemma substring_trans : forall a b t,
  substring a b -> substring b t -> substring a t.
Proof.
  intros a b t (p1 & q1 & ->) (p2 & q2 & ->).
  exists (p2 ++ p1), (q1 ++ q2). now rewrite <- !app_assoc.
Qed.

Lemma asciiLower_idempotent : forall c,
  asciiLower (asciiLower c) = asciiLower c.
Proof.
  intros c. unfold asciiLower, isUpper.
  destruct ((65 <=? c)%N && (c <=? 90)%N) eqn:E; [|now rewrite E].
  apply andb_true_iff in E. destruct E as [E _]. apply N.leb_le in E.
  destruct (N.leb_spec (c + 32) 90); [lia|]. now rewrite andb_false_r.
Qed.

Lemma asciiLower_ascii : forall c,
  isAscii c = true -> isAscii (asciiLower c) = true.
Proof.
  intros c. unfold isAscii, asciiLower, isUpper. intros H.
  apply N.ltb_lt in H.
  destruct ((65 <=? c)%N && (c <=? 90)%N) eqn:E; apply N.ltb_lt; [|lia].
  apply andb_true_iff in E. destruct E as [_ E]. apply N.leb_le in E. lia.
Qed.

Lemma map_join : forall (f : unit16 -> unit16) sep xs,
  map f (Str.join sep xs) = Str.join (map f sep) (map (map f) xs).
Proof.
  intros f sep. induction xs as [|x xs IH]; [reflexivity|].
  destruct xs as [|x2 xs]; [reflexivity|].
  change (Str.join sep (x :: x2 :: xs))
    with (x ++ sep ++ Str.join sep (x2 :: xs)).
  change (Str.join (map f sep) (map (map f) (x :: x2 :: xs)))
    with (map f x ++ map f sep
            ++ Str.join (map f sep) (map (map f) (x2 :: xs))).
  now rewrite !map_app, IH.
Qed.

Lemma join_ascii : forall sep xs,
  forallb isAscii sep = true ->
  (forall x, In x xs -> forallb isAscii x = true) ->
  forallb isAscii (Str.join sep xs) = true.
Proof.
  intros sep xs Hs. induction xs as [|x xs IH]; intros H; [reflexivity|].
  destruct xs as [|x2 xs]; [apply H; now left|].
  change (Str.join sep (x :: x2 :: xs))
    with (x ++ sep ++ Str.join sep (x2 :: xs)).
  rewrite !forallb_app, Hs, (H x (or_introl eq_refl)), IH; [reflexivity|].
  intros y Hy. apply H. now right.
Qed.

Lemma map_ascii : forall s,
  forallb isAscii s = true -> forallb isAscii (map asciiLower s) = true.
Proof.
  induction s as [|c s IH]; simpl; intros H; [reflexivity|].
  apply andb_true_iff in H. destruct H as [Hc Hs].
  now rewrite (asciiLower_ascii c Hc), IH.
Qed.

(** An element of a list occurs in the list joined. *)
Lemma join_In : forall sep x xs, In x xs -> substring x (Str.join sep xs).
Proof.
  intros sep x. induction xs as [|y xs IH]; intros Hin; [contradiction|].
  destruct xs as [|y2 xs].
  - destruct Hin as [<-|[]]. exists [], []. now rewrite app_nil_r.
  - change (Str.join sep (y :: y2 :: xs))
      with (y ++ sep ++ Str.join sep (y2 :: xs)).
    destruct Hin as [<-|Hin].
    + now exists [], (sep ++ Str.join sep (y2 :: xs)).
    + destruct (IH Hin) as (a & b & E). rewrite E.
      exists (y ++ sep ++ a), b. now rewrite <- !app_assoc.
Qed.

(** ** The service over any runtime *)

Section Properties.

Variable Date : Type.
Variable newDate : jsstring -> option Date.
Variable now : Date.
Variable toLowerCase : jsstring -> jsstring.

(** Of [toLowerCase] only the behaviour on ASCII strings is used: there it
    maps the letters A to Z to a to z, one by one. *)
Hypothesis toLowerCase_ascii :
  forall s, forallb isAscii s = true -> toLowerCase s = map asciiLower s.

Local Abbreviation parse := (parseReceiptText newDate toLowerCase).
Local Abbreviation process := (processReceipt newDate now toLowerCase).
Local Abbreviation categorize := (determineCategory toLowerCase).

(** A merchant, when there is one, is a line of more than 3 code
    units. *)
Lemma extractMerchant_long : forall text name,
  extractMerchant toLowerCase text = Some name -> 3 < length name.
Proof.
  unfold extractMerchant. intros text name H.
  apply find_some in H. destruct H as [_ H].
  unfold merchantLine in H. bool_hyps. assumption.
Qed.

Lemma truthyString_merchant : forall text,
  truthyString (extractMerchant toLowerCase text)
  = present (extractMerchant toLowerCase text).
Proof.
  intros text.
  destruct (extractMerchant toLowerCase text) as [name|] eqn:E; simpl;
    [|reflexivity].
  apply extractMerchant_long in E. destruct name; simpl in *; [lia|auto].
Qed.

(** The three ways [processReceipt] ends on a text. *)
Lemma process_text : forall text,
  process (Text text) =
  if Nat.eqb (length (Str.trim text)) 0 then Failure EmptyInput
  else match extractAmount text with
       | None => Failure AmountNotFound
       | Some _ =>
           Success
             {| d_amount := extractAmount text;
                d_category :=
                  categorize (orEmpty (extractMerchant toLowerCase text))
                             (extractItems text);
                d_description := describe (parse text);
                d_date := Some (orElse (extractDate newDate text) now);
                d_merchant := extractMerchant toLowerCase text;
                d_items := extractItems text;
                d_confidence := calculateConfidence (parse text) |}
             (parse text)
       end.
Proof.
  intros text. unfold processReceipt.
  assert (Hempty : Nat.eqb (length text) 0
                   || Nat.eqb (length (Str.trim text)) 0
                   = Nat.eqb (length (Str.trim text)) 0).
  { destruct text; [reflexivity|]. reflexivity. }
  rewrite Hempty. destruct (Nat.eqb (length (Str.trim text)) 0);
    [reflexivity|].
  cbn [amount parseReceiptText merchant items date].
  rewrite truthyAmount_extract.
  destruct (extractAmount text); reflexivity.
Qed.

Lemma length_zero_nil : forall s : jsstring,
  Nat.eqb (length s) 0 = true <-> s = [].
Proof.
  intros [|x s]; simpl; split; intro H; congruence.
Qed.

(** C1: on every text, [processReceipt] fails with [EmptyInput] exactly
    when the trimmed text is empty, fails with [AmountNotFound] exactly
    when the trimmed text is not empty and no amount is extracted, and
    succeeds otherwise, whatever the merchant, the date and the items;
    the empty text and the text of three blanks fail with
    [EmptyInput], and the text "total 5", which has no merchant, no date
    and no item, succeeds. *)
Theorem processReceipt_outcomes :
  (forall text,
     (process (Text text) = Failure EmptyInput <-> Str.trim text = [])
     /\ (process (Text text) = Failure AmountNotFound <->
         Str.trim text <> [] /\ extractAmount text = None)
     /\ ((exists d raw, process (Text text) = Success d raw) <->
         Str.trim text <> [] /\ extractAmount text <> None))
  /\ process (Text (js "")) = Failure EmptyInput
  /\ process (Text (js "   ")) = Failure EmptyInput
  /\ exists d raw,
       process (Text (js "total 5")) = Success d raw
       /\ d_merchant d = None /\ date raw = None /\ d_items d = [].
Proof.
  split; [|split; [reflexivity|split; [reflexivity|]]].
  2: { rewrite process_text. vm_compute. do 2 eexists.
       split; [reflexivity|]. cbn. repeat split. }
  intros text. rewrite process_text.
  destruct (Nat.eqb (length (Str.trim text)) 0) eqn:E.
  - apply length_zero_nil in E. split; [tauto|]. split.
    + split; [discriminate | tauto].
    + split; [intros (d & raw & H); discriminate | tauto].
  - assert (Hne : Str.trim text <> []).
    { intro H. apply length_zero_nil in H. congruence. }
    destruct (extractAmount text) as [x|] eqn:Ea.
    + split; [split; [discriminate | tauto]|]. split.
      * split; [discriminate | intros [_ H]; discriminate].
      * split; [intros _; split; [assumption | discriminate] | eauto].
    + split; [split; [discriminate | tauto]|]. split.
      * split; auto.
      * split; [intros (d & raw & H); discriminate | tauto].
Qed.

(** C2: in every success the amount is present, above 0 and below
    100000, and the date is present: the date extracted when there is
    one, the current date otherwise. *)
Theorem success_amount_date : forall r d raw,
  process r = Success d raw ->
  (exists q, d_amount d = Some (Finite q)
             /\ (0 < q)%Q /\ (q < 100000)%Q)
  /\ exists text,
       r = Text text
       /\ d_date d = Some (match extractDate newDate text with
                           | Some extracted => extracted
                           | None => now
                           end).
Proof.
  intros [message|text] d raw H; [discriminate|].
  rewrite process_text in H.
  destruct (Nat.eqb (length (Str.trim text)) 0); [discriminate|].
  destruct (extractAmount text) as [x|] eqn:Ea; [|discriminate].
  inversion H; subst; clear H. cbn [d_amount d_date]. split.
  - apply extractAmount_reasonable in Ea.
    destruct (reasonable_bounds _ Ea) as (q & -> & Hq). eauto.
  - exists text. split; reflexivity.
Qed.

Lemma confidence_points : forall text,
  calculateConfidence (parse text)
  = Z.min (points (present (extractAmount text))
                  (present (extractMerchant toLowerCase text))
                  (present (extractDate newDate text))
                  (Nat.ltb 0 (length (extractItems text)))) 100.
Proof.
  intros text. unfold calculateConfidence.
  cbn [amount parseReceiptText merchant items date].
  rewrite truthyAmount_extract, truthyString_merchant.
  unfold points.
  destruct (present (extractAmount text)),
           (present (extractMerchant toLowerCase text)),
           (present (extractDate newDate text)),
           (Nat.ltb 0 (length (extractItems text))); reflexivity.
Qed.

(** C5: the confidence of the record assembled from a text is 40 for a
    present amount, plus 30 for a present merchant, plus 20 for a
    present date, plus 10 for a non-empty item list, capped at 100; it
    lies between 0 and 100 and is 100 exactly when the amount, the
    merchant and the date are present and the item list is not
    empty. *)
Theorem confidence_score : forall text,
  let p := parse text in
  calculateConfidence p
  = Z.min ((if present (amount p) then 40 else 0)
           + (if present (merchant p) then 30 else 0)
           + (if present (date p) then 20 else 0)
           + (if Nat.ltb 0 (length (items p)) then 10 else 0)) 100
  /\ (0 <= calculateConfidence p <= 100)%Z
  /\ (calculateConfidence p = 100%Z <->
      amount p <> None /\ merchant p <> None /\ date p <> None
      /\ items p <> []).
Proof.
  intros text p. subst p. rewrite confidence_points.
  cbn [amount parseReceiptText merchant items date]. unfold points.
  destruct (extractAmount text), (extractMerchant toLowerCase text),
           (extractDate newDate text), (extractItems text);
    cbn; repeat split; try lia; try congruence;
    intros; try discriminate; tauto.
Qed.

(** C10: the confidence of a success is at least 40 and is one of 40,
    50, 60, 70, 80, 90, 100. *)
Theorem success_confidence : forall r d raw,
  process r = Success d raw ->
  (40 <= d_confidence d)%Z
  /\ In (d_confidence d) [40; 50; 60; 70; 80; 90; 100]%Z.
Proof.
  intros [message|text] d raw H; [discriminate|].
  rewrite process_text in H.
  destruct (Nat.eqb (length (Str.trim text)) 0); [discriminate|].
  destruct (extractAmount text) as [x|] eqn:Ea; [|discriminate].
  inversion H; subst; clear H. cbn [d_confidence].
  rewrite confidence_points, Ea. unfold points.
  destruct (present (extractMerchant toLowerCase text)),
           (present (extractDate newDate text)),
           (Nat.ltb 0 (length (extractItems text)));
    cbn; split; try lia; tauto.
Qed.

(** *** The category *)

(** The loop returns the category of the first pair, in the order of
    the loops, whose keyword is found. *)
Lemma categoryLoop_find : forall text table,
  categoryLoop toLowerCase text table =
  match find (fun ck => keywordHit toLowerCase text (snd ck))
             (flat_map (fun entry => map (pair (fst entry)) (snd entry))
                       table) with
  | Some ck => fst ck
  | None => Others
  end.
Proof.
  intros text. induction table as [|[category keywords] table IH];
    simpl; [reflexivity|].
  rewrite IH. clear IH.
  induction keywords as [|keyword keywords IHk]; simpl; [reflexivity|].
  destruct (keywordHit toLowerCase text keyword); simpl;
    [reflexivity | exact IHk].
Qed.

(** The keywords of the table are ASCII and in lower case, so that
    [keyword.toLowerCase()] is the keyword. *)
Lemma keyword_lower : forall category keyword,
  In (category, keyword) keywordPairs -> toLowerCase keyword = keyword.
Proof.
  assert (H : Forall (fun ck =>
                        forallb isAscii (snd ck) = true
                        /\ map asciiLower (snd ck) = snd ck)
                     keywordPairs).
  { apply Forall_forall. intros ck Hin. vm_compute in Hin.
    repeat (destruct Hin as [<-|Hin]; [split; reflexivity|]).
    contradiction. }
  intros category keyword Hin.
  rewrite Forall_forall in H. destruct (H _ Hin) as [Ha Hl].
  simpl in Ha, Hl. rewrite toLowerCase_ascii; assumption.
Qed.

Lemma keywordHit_substring : forall text category keyword,
  In (category, keyword) keywordPairs ->
  (keywordHit toLowerCase text keyword = true <-> substring keyword text).
Proof.
  intros text category keyword Hin. unfold keywordHit.
  rewrite (keyword_lower _ _ Hin). apply includes_spec.
Qed.

(** On ASCII input the text searched is the merchant, a space and the
    items separated by spaces, letter by letter in lower case. *)
Lemma searchText_ascii : forall merchant items,
  forallb isAscii merchant = true ->
  (forall item, In item items -> forallb isAscii item = true) ->
  toLowerCase (merchant ++ js " " ++ Str.join (js " ") items)
  = map asciiLower merchant ++ js " "
      ++ Str.join (js " ") (map (map asciiLower) items).
Proof using toLowerCase_ascii.
  intros merchant items Hm Hi.
  rewrite toLowerCase_ascii.
  - now rewrite !map_app, map_join.
  - rewrite !forallb_app, Hm, join_ascii; auto.
Qed.

(** C4: for every merchant and every item list [determineCategory]
    returns a value of the enumeration Food & Dining, Transportation,
    Shopping, Healthcare, Utilities, Entertainment, Others, and it
    returns Others exactly when no keyword of the table occurs as a
    substring of the merchant, a space and the items separated by
    spaces, taken to lower case as one string. On ASCII input in
    particular, a keyword that occurs in the lower-cased merchant or in
    one of the lower-cased items excludes Others. *)
Theorem determineCategory_total : forall merchant items,
  In (categorize merchant items) categories
  /\ (categorize merchant items = Others <->
      forall category keywords keyword,
        In (category, keywords) categoryMappings ->
        In keyword keywords ->
        ~ substring keyword
            (toLowerCase (merchant ++ js " " ++ Str.join (js " ") items)))
  /\ (forallb isAscii merchant = true ->
      (forall item, In item items -> forallb isAscii item = true) ->
      forall category keywords keyword part,
        In (category, keywords) categoryMappings ->
        In keyword keywords ->
        part = merchant \/ In part items ->
        substring keyword (map asciiLower part) ->
        categorize merchant items <> Others).
Proof using toLowerCase_ascii.
  intros merchant items.
  assert (Hiff : categorize merchant items = Others <->
            forall category keywords keyword,
              In (category, keywords) categoryMappings ->
              In keyword keywords ->
              ~ substring keyword
                  (toLowerCase
                     (merchant ++ js " " ++ Str.join (js " ") items))).
  { unfold determineCategory. rewrite categoryLoop_find. fold keywordPairs.
    change (searchText toLowerCase merchant items)
      with (toLowerCase (merchant ++ js " " ++ Str.join (js " ") items)).
    set (text := toLowerCase (merchant ++ js " " ++ Str.join (js " ") items)).
    destruct (find (fun ck => keywordHit toLowerCase text (snd ck))
                   keywordPairs) as [[category keyword]|] eqn:E.
    - apply find_some in E. destruct E as [Hin Hhit]. simpl in Hhit.
      destruct (category_named _ _ Hin) as [Hc Hne]. simpl.
      split; [contradiction|].
      intros Hnone. exfalso.
      destruct (proj1 (keywordPairs_in _ _) Hin) as (kws & Hkws & Hk).
      apply (Hnone _ _ _ Hkws Hk).
      now apply (keywordHit_substring text category keyword Hin).
    - split; [|reflexivity].
      intros _ category keywords keyword Hkws Hk Hsub.
      assert (Hin : In (category, keyword) keywordPairs)
        by (apply keywordPairs_in; eauto).
      apply (keywordHit_substring text category keyword Hin) in Hsub.
      pose proof (find_none _ _ E _ Hin) as Hn. simpl in Hn. congruence. }
  split; [|split; [exact Hiff|]].
  - unfold determineCategory. rewrite categoryLoop_find. fold keywordPairs.
    destruct (find _ keywordPairs) as [[category keyword]|] eqn:E.
    + apply find_some in E. destruct E as [Hin _].
      now destruct (category_named _ _ Hin).
    + do 6 right; left; reflexivity.
  - intros Hm Hi category keywords keyword part Hkws Hk Hpart Hsub HO.
    apply (proj1 Hiff HO category keywords keyword Hkws Hk).
    rewrite (searchText_ascii merchant items Hm Hi).
    apply (substring_trans _ _ _ Hsub).
    destruct Hpart as [->|Hin].
    + now exists [], (js " " ++ Str.join (js " ")
                                  (map (map asciiLower) items)).
    + apply (in_map (map asciiLower)) in Hin.
      destruct (join_In (js " ") _ _ Hin) as (a & b & E). rewrite E.
      exists (map asciiLower merchant ++ js " " ++ a), b.
      now rewrite <- !app_assoc.
Qed.

(** C8: when the merchant, a space and the items separated by spaces,
    taken to lower case as one string, hold keywords of two different
    categories, [determineCategory] returns the category of the first
    (category, keyword) pair, in the order of the table and of its
    keyword lists, whose keyword occurs in that string: no pair before
    it has a keyword in the string, whatever the number of keywords
    found for each category. *)
Theorem determineCategory_first_match :
  forall merchant items category1 keyword1 category2 keyword2,
    In (category1, keyword1) keywordPairs ->
    In (category2, keyword2) keywordPairs ->
    category1 <> category2 ->
    substring keyword1
      (toLowerCase (merchant ++ js " " ++ Str.join (js " ") items)) ->
    substring keyword2
      (toLowerCase (merchant ++ js " " ++ Str.join (js " ") items)) ->
    exists before category keyword after,
      keywordPairs = before ++ (category, keyword) :: after
      /\ substring keyword
           (toLowerCase (merchant ++ js " " ++ Str.join (js " ") items))
      /\ (forall c k, In (c, k) before ->
            ~ substring k
                (toLowerCase
                   (merchant ++ js " " ++ Str.join (js " ") items)))
      /\ categorize merchant items = category.
Proof using toLowerCase_ascii.
  intros merchant items c1 k1 c2 k2 Hin1 _ _ Hsub1 _.
  unfold determineCategory. rewrite categoryLoop_find. fold keywordPairs.
  change (searchText toLowerCase merchant items)
    with (toLowerCase (merchant ++ js " " ++ Str.join (js " ") items)).
  set (text := toLowerCase (merchant ++ js " " ++ Str.join (js " ") items))
    in *.
  destruct (find (fun ck => keywordHit toLowerCase text (snd ck))
                 keywordPairs) as [[category keyword]|] eqn:E.
  - destruct (find_split _ _ _ _ E) as (before & after & Heq & Hhit & Hpre).
    exists before, category, keyword, after. simpl in Hhit.
    assert (Hin : In (category, keyword) keywordPairs).
    { rewrite Heq. apply in_or_app. right. now left. }
    split; [assumption|]. split.
    { now apply (keywordHit_substring text category keyword Hin). }
    split; [|reflexivity].
    intros c k Hck Hsub.
    assert (Hin' : In (c, k) keywordPairs).
    { rewrite Heq. apply in_or_app. now left. }
    apply (keywordHit_substring text c k Hin') in Hsub.
    specialize (Hpre _ Hck). simpl in Hpre. congruence.
  - exfalso. pose proof (find_none _ _ E _ Hin1) as Hn. simpl in Hn.
    apply (keywordHit_substring text c1 k1 Hin1) in Hsub1. congruence.
Qed.

(** *** The description *)

(** The description by cases on the merchant and the items. *)
Lemma describe_cases : forall p : parsed Date,
  describe p =
  match merchant p, items p with
  | Some (x :: name), [] => js "Purchase at " ++ x :: name
  | Some (x :: name), _ :: _ =>
      js "Purchase at " ++ (x :: name) ++ js " - "
        ++ Str.join (js ", ") (firstn 3 (items p))
  | _, [] => js "Receipt purchase"
  | _, _ :: _ => js " - " ++ Str.join (js ", ") (firstn 3 (items p))
  end.
Proof.
  intros [a m d i t]. unfold describe. cbn [merchant items].
  destruct m as [[|x name]|], i as [|it i]; reflexivity.
Qed.

(** C6 at the receipt "Milk rs 50": the receipt succeeds without a
    merchant and with the item "Milk", and its description is
    " - Milk", not "Receipt purchase". *)
Theorem milk_description :
  exists d raw,
    process (Text milk) = Success d raw
    /\ d_merchant d = None
    /\ d_items d = [js "Milk"]
    /\ d_description d = js " - Milk"
    /\ d_description d <> js "Receipt purchase".
Proof.
  rewrite process_text. vm_compute.
  do 2 eexists. split; [reflexivity|]. cbn.
  repeat split; try reflexivity. discriminate.
Qed.

End Properties.


(** ** The service on the runtime [Runtime] *)

Lemma runtime_toLowerCase_ascii : forall s,
  forallb isAscii s = true -> Runtime.toLowerCase s = map asciiLower s.
Proof. intros s _. reflexivity. Qed.

Lemma milk_success : Runtime.process (Text milk) = Success milkData milkParsed.
Proof. vm_compute. reflexivity. Qed.

(** The receipt "Milk rs 50" succeeds with the amount 50 and the current
    date. *)
Lemma success_amount_date_witness :
  Runtime.process (Text milk) = Success milkData milkParsed
  /\ (exists q, d_amount milkData = Some (Finite q)
                /\ (0 < q)%Q /\ (q < 100000)%Q)
  /\ exists text,
       Text milk = Text text
       /\ d_date milkData
          = Some (match extractDate Runtime.newDate text with
                  | Some extracted => extracted
                  | None => Runtime.now
                  end).
Proof.
  split; [exact milk_success|].
  exact (success_amount_date Runtime.Date Runtime.newDate Runtime.now
           Runtime.toLowerCase (Text milk) milkData milkParsed milk_success).
Defined.

(** The receipt "Milk rs 50" succeeds with the confidence 50. *)
Lemma success_confidence_witness :
  Runtime.process (Text milk) = Success milkData milkParsed
  /\ (40 <= d_confidence milkData)%Z
  /\ In (d_confidence milkData) [40; 50; 60; 70; 80; 90; 100]%Z.
Proof.
  split; [exact milk_success|].
  exact (success_confidence Runtime.Date Runtime.newDate Runtime.now
           Runtime.toLowerCase (Text milk) milkData milkParsed milk_success).
Defined.

(** The merchant "Corner" with the item "Pizza": the keyword pizza
    occurs in the item only, and the category is Food & Dining. *)
Lemma determineCategory_total_witness :
  (forall s, forallb isAscii s = true ->
             Runtime.toLowerCase s = map asciiLower s)
  /\ Runtime.categorize (js "Corner") [js "Pizza"] = js "Food & Dining"
  /\ In (Runtime.categorize (js "Corner") [js "Pizza"]) categories
  /\ (Runtime.categorize (js "Corner") [js "Pizza"] = Others <->
      forall category keywords keyword,
        In (category, keywords) categoryMappings ->
        In keyword keywords ->
        ~ substring keyword
            (Runtime.toLowerCase
               (js "Corner" ++ js " " ++ Str.join (js " ") [js "Pizza"])))
  /\ (forallb isAscii (js "Corner") = true ->
      (forall item, In item [js "Pizza"] -> forallb isAscii item = true) ->
      forall category keywords keyword part,
        In (category, keywords) categoryMappings ->
        In keyword keywords ->
        part = js "Corner" \/ In part [js "Pizza"] ->
        substring keyword (map asciiLower part) ->
        Runtime.categorize (js "Corner") [js "Pizza"] <> Others).
Proof.
  split; [exact runtime_toLowerCase_ascii|].
  split; [reflexivity|].
  exact (determineCategory_total Runtime.toLowerCase
           runtime_toLowerCase_ascii (js "Corner") [js "Pizza"]).
Defined.

(** The merchant "City Mall" with the item "Uber ride": the keyword mall
    of Shopping occurs in the merchant and the keyword uber of
    Transportation in the item. *)
Lemma determineCategory_first_match_witness :
  (forall s, forallb isAscii s = true ->
             Runtime.toLowerCase s = map asciiLower s)
  /\ In (js "Shopping", js "mall") keywordPairs
  /\ In (js "Transportation", js "uber") keywordPairs
  /\ js "Shopping" <> js "Transportation"
  /\ substring (js "mall")
       (Runtime.toLowerCase
          (js "City Mall" ++ js " " ++ Str.join (js " ") [js "Uber ride"]))
  /\ substring (js "uber")
       (Runtime.toLowerCase
          (js "City Mall" ++ js " " ++ Str.join (js " ") [js "Uber ride"]))
  /\ Runtime.categorize (js "City Mall") [js "Uber ride"]
     = js "Transportation"
  /\ exists before category keyword after,
       keywordPairs = before ++ (category, keyword) :: after
       /\ substring keyword
            (Runtime.toLowerCase
               (js "City Mall" ++ js " "
                  ++ Str.join (js " ") [js "Uber ride"]))
       /\ (forall c k, In (c, k) before ->
             ~ substring k
                 (Runtime.toLowerCase
                    (js "City Mall" ++ js " "
                       ++ Str.join (js " ") [js "Uber ride"])))
       /\ Runtime.categorize (js "City Mall") [js "Uber ride"] = category.
Proof.
  assert (H1 : In (js "Shopping", js "mall") keywordPairs).
  { apply (nth_error_In _ 36). reflexivity. }
  assert (H2 : In (js "Transportation", js "uber") keywordPairs).
  { apply (nth_error_In _ 20). reflexivity. }
  assert (Hne : js "Shopping" <> js "Transportation") by discriminate.
  assert (S1 : substring (js "mall")
                 (Runtime.toLowerCase
                    (js "City Mall" ++ js " "
                       ++ Str.join (js " ") [js "Uber ride"]))).
  { apply includes_spec. reflexivity. }
  assert (S2 : substring (js "uber")
                 (Runtime.toLowerCase
                    (js "City Mall" ++ js " "
                       ++ Str.join (js " ") [js "Uber ride"]))).
  { apply includes_spec. reflexivity. }
  assert (C : Runtime.categorize (js "City Mall") [js "Uber ride"]
              = js "Transportation") by reflexivity.
  repeat (split; [assumption || exact runtime_toLowerCase_ascii|]).
  exact (determineCategory_first_match Runtime.toLowerCase
           runtime_toLowerCase_ascii (js "City Mall") [js "Uber ride"]
           (js "Shopping") (js "mall") (js "Transportation") (js "uber")
           H1 H2 Hne S1 S2).
Defined.

(** The text with "mall" before "uber" is a Transportation receipt: the
    pair (Transportation, uber) is reached before (Shopping, mall). *)
Example mall_uber :
  Runtime.categorize (js "mall uber") [] = js "Transportation".
Proof. vm_compute. reflexivity. Qed.

(** * Further properties of the service *)

(** ** The matcher and the language of a pattern *)

(** Soundness: what the matcher consumes is a word of the pattern. *)
Lemma m_sound : forall (R : Type) r s c
                       (k : jsstring -> captures -> option R) x,
  m r s c k = Some x ->
  exists u s' c', s = u ++ s' /\ lang r u /\ k s' c' = Some x.
Proof.
  intros R. induction r as [|p|r1 IH1 r2 IH2|r1 IH1 r2 IH2|r1 IH1|i r1 IH1];
    intros s c k x H; simpl in H.
  - exists [], s, c. repeat split; [constructor | assumption].
  - destruct s as [|a s]; [discriminate|].
    destruct (p a) eqn:E; [|discriminate].
    exists [a], s, c. repeat split; [now constructor | assumption].
  - apply IH1 in H. destruct H as (u1 & s1 & c1 & -> & L1 & H).
    apply IH2 in H. destruct H as (u2 & s2 & c2 & -> & L2 & H).
    exists (u1 ++ u2), s2, c2. rewrite app_assoc.
    repeat split; [now constructor | assumption].
  - destruct (m r1 s c k) eqn:E.
    + inversion H; subst. apply IH1 in E.
      destruct E as (u & s' & c' & -> & L & E).
      exists u, s', c'. repeat split; [now apply L_alt_l | assumption].
    + apply IH2 in H. destruct H as (u & s' & c' & -> & L & H).
      exists u, s', c'. repeat split; [now apply L_alt_r | assumption].
  - remember (length s) as n eqn:Hn. clear Hn.
    revert s c H. induction n as [|n IHn]; intros s c H.
    + exists [], s, c. repeat split; [constructor | assumption].
    + match type of H with
      | match ?e with _ => _ end = _ => destruct e eqn:E
      end.
      * inversion H; subst. apply IH1 in E.
        destruct E as (u1 & s1 & c1 & -> & L1 & E).
        destruct (Nat.ltb (length s1) (length (u1 ++ s1))) eqn:Hlt;
          [|discriminate].
        apply IHn in E. destruct E as (u2 & s2 & c2 & -> & L2 & E).
        exists (u1 ++ u2), s2, c2. rewrite app_assoc.
        repeat split; [|assumption].
        apply L_star_cons; [assumption | | assumption].
        intros ->. simpl in Hlt. rewrite Nat.ltb_irrefl in Hlt.
        discriminate.
      * exists [], s, c. repeat split; [constructor | assumption].
  - apply IH1 in H. destruct H as (u & s' & c' & -> & L & H).
    exists u, s', ((i, firstn (length (u ++ s') - length s') (u ++ s')) :: c').
    repeat split; [now constructor | assumption].
Qed.

(** Completeness: on a word of the pattern followed by an input that the
    continuation accepts, the matcher succeeds. *)
Lemma m_complete : forall (R : Type) r u,
  lang r u ->
  forall s' (k : jsstring -> captures -> option R) c,
    (forall c', k s' c' <> None) -> m r (u ++ s') c k <> None.
Proof.
  intros R.
  induction r as [|p|r1 IH1 r2 IH2|r1 IH1 r2 IH2|r1 IH1|i r1 IH1];
    intros u L s' k c Hk.
  - inversion L; subst. simpl. apply Hk.
  - inversion L; subst. simpl.
    match goal with H : p _ = true |- _ => rewrite H end. apply Hk.
  - inversion L; subst. simpl. rewrite <- app_assoc.
    apply IH1; [assumption|]. intros c'. now apply IH2.
  - simpl. destruct (m r1 (u ++ s') c k) eqn:E; [discriminate|].
    inversion L; subst.
    + exfalso. now apply (IH1 u H2 s' k c Hk).
    + now apply IH2.
  - assert (Hfuel : forall n c, length (u ++ s') <= n ->
              (fix iter (n : nat) (s : jsstring) (c : captures)
                 : option R :=
                 match n with
                 | O => k s c
                 | S n' =>
                     match m r1 s c
                             (fun s' c' =>
                                if Nat.ltb (length s') (length s)
                                then iter n' s' c' else None) with
                     | Some res => Some res
                     | None => k s c
                     end
                 end) n (u ++ s') c <> None).
    { clear c. remember (Star r1) as r0 eqn:Hr.
      induction L as [| | | | |r|r u v Lu _ Hne Lv IHv|]; try discriminate.
      - intros [|n] c _; [apply Hk|].
        match goal with
        | |- match ?e with _ => _ end <> None => destruct e
        end; [discriminate | apply Hk].
      - inversion Hr; subst r. intros [|n] c Hn.
        + exfalso. destruct u; [now apply Hne|]. simpl in Hn. lia.
        + match goal with
          | |- match ?e with _ => _ end <> None => destruct e eqn:E
          end; [discriminate|].
          exfalso. rewrite <- app_assoc in E.
          revert E. apply IH1; [assumption|]. intros c'.
          assert (Hlt : Nat.ltb (length (v ++ s'))
                                (length ((u ++ v) ++ s')) = true).
          { apply Nat.ltb_lt. rewrite <- app_assoc, (length_app u).
            destruct u; [now contradiction Hne|]. simpl. lia. }
          rewrite app_assoc, Hlt. apply (IHv eq_refl).
          rewrite <- app_assoc, (length_app u) in Hn.
          destruct u; [now contradiction Hne|]. simpl in Hn. lia. }
    simpl. apply Hfuel. lia.
  - inversion L; subst. simpl. apply IH1; [assumption|].
    intros c'. apply Hk.
Qed.

(** A pattern matches at the front of a string exactly when a prefix of
    the string is a word of the pattern. *)
Lemma matchAt_lang : forall r s,
  matchAt r s <> None <-> exists u s', s = u ++ s' /\ lang r u.
Proof.
  intros r s. unfold matchAt. split.
  - destruct (m r s [] _) as [res|] eqn:E; [intros _|congruence].
    apply m_sound in E. destruct E as (u & s' & c' & -> & L & _). eauto.
  - intros (u & s' & -> & L). apply m_complete; [assumption|]. discriminate.
Qed.

Lemma exec_unfold : forall r s,
  exec r s =
  match matchAt r s with
  | Some res => Some res
  | None => match s with [] => None | _ :: s' => exec r s' end
  end.
Proof. intros r [|a s]; reflexivity. Qed.

(** [test] succeeds exactly on the strings with a factor in the language
    of the pattern. *)
Lemma test_lang : forall r s,
  test r s = true <-> exists pre u post, s = pre ++ u ++ post /\ lang r u.
Proof.
  intros r s. unfold test. split.
  - destruct (exec r s) as [res|] eqn:E; [intros _|discriminate].
    revert res E. induction s as [|a s IH]; intros res E; simpl in E.
    + destruct (matchAt r []) eqn:Em; [|discriminate].
      assert (Hm : matchAt r [] <> None) by congruence.
      apply matchAt_lang in Hm. destruct Hm as (u & s' & Hs & L).
      now exists [], u, s'.
    + destruct (matchAt r (a :: s)) eqn:Em.
      * assert (Hm : matchAt r (a :: s) <> None) by congruence.
        apply matchAt_lang in Hm. destruct Hm as (u & s' & Hs & L).
        now exists [], u, s'.
      * destruct (IH _ E) as (pre & u & post & -> & L).
        now exists (a :: pre), u, post.
  - intros (pre & u & post & -> & L).
    assert (H : exec r (pre ++ u ++ post) <> None).
    { induction pre as [|a pre IH]; simpl.
      - rewrite exec_unfold.
        destruct (matchAt r (u ++ post)) eqn:Em; [discriminate|].
        exfalso. revert Em. apply matchAt_lang. eauto.
      - destruct (matchAt r (a :: pre ++ u ++ post));
          [discriminate | exact IH]. }
    destruct (exec r (pre ++ u ++ post)); congruence.
Qed.

Lemma exec_none_test : forall r s, exec r s = None <-> test r s = false.
Proof.
  intros r s. unfold test. destruct (exec r s); split; congruence.
Qed.

(** A word of a pattern that demands a class holds a code unit of it. *)
Lemma lang_demands : forall p r u,
  lang r u -> demands p r -> exists x, In x u /\ p x = true.
Proof.
  intros p r u L. induction L; simpl; intros D; try contradiction.
  - exists x. split; [now left | auto].
  - destruct D as [D|D].
    + destruct (IHL1 D) as (x & Hx & Hp). exists x.
      split; [apply in_or_app; now left | assumption].
    + destruct (IHL2 D) as (x & Hx & Hp). exists x.
      split; [apply in_or_app; now right | assumption].
  - apply IHL. tauto.
  - apply IHL. tauto.
  - now apply IHL.
Qed.

(** A string without a code unit of a class that a pattern demands has
    no match of the pattern. *)
Lemma demands_no_match : forall p r s,
  demands p r -> (forall x, In x s -> p x = false) -> exec r s = None.
Proof.
  intros p r s D Hs. apply exec_none_test.
  destruct (test r s) eqn:E; [|reflexivity]. exfalso.
  apply test_lang in E. destruct E as (pre & u & post & -> & L).
  destruct (lang_demands p r u L D) as (x & Hx & Hp).
  rewrite Hs in Hp; [discriminate|].
  apply in_or_app. right. apply in_or_app. now left.
Qed.

Lemma demands_no_stringMatch : forall p pat s,
  demands p (body pat) -> (forall x, In x s -> p x = false) ->
  stringMatch s pat = Null.
Proof.
  intros p pat s D Hs. unfold stringMatch.
  destruct (global pat); simpl; now rewrite (demands_no_match p _ s D Hs).
Qed.

(** ** The lines of a text *)

Lemma split_incl : forall sep s piece x,
  In piece (Str.split sep s) -> In x piece -> In x s.
Proof.
  intros sep. induction s as [|c s IH]; simpl; intros piece x Hp Hx.
  - destruct Hp as [<-|[]]. contradiction.
  - destruct (eqc c sep).
    + destruct Hp as [<-|Hp]; [contradiction|]. right. eauto.
    + destruct (Str.split sep s) as [|p ps] eqn:E.
      * destruct Hp as [<-|[]]. destruct Hx as [->|[]]. now left.
      * destruct Hp as [<-|Hp].
        -- destruct Hx as [->|Hx]; [now left|]. right.
           apply (IH p); [now left | assumption].
        -- right. apply (IH piece); [now right | assumption].
Qed.

Lemma split_no_sep : forall sep s piece,
  In piece (Str.split sep s) -> ~ In sep piece.
Proof.
  intros sep. induction s as [|c s IH]; simpl; intros piece Hp Hs.
  - destruct Hp as [<-|[]]. contradiction.
  - destruct (eqc c sep) eqn:Ec.
    + destruct Hp as [<-|Hp]; [contradiction|]. now apply (IH piece).
    + destruct (Str.split sep s) as [|p ps] eqn:E.
      * destruct Hp as [<-|[]]. destruct Hs as [->|[]].
        unfold eqc in Ec. rewrite N.eqb_refl in Ec. discriminate.
      * destruct Hp as [<-|Hp].
        -- destruct Hs as [->|Hs].
           ++ unfold eqc in Ec. rewrite N.eqb_refl in Ec. discriminate.
           ++ apply (IH p); [now left | assumption].
        -- apply (IH piece); [now right | assumption].
Qed.

Lemma trimStart_suffix : forall s, exists pre, s = pre ++ Str.trimStart s.
Proof.
  induction s as [|c s [pre IH]]; simpl.
  - now exists [].
  - destruct (isSpace c); [|now exists []].
    exists (c :: pre). simpl. now rewrite <- IH.
Qed.

Lemma trimStart_head : forall s x t,
  Str.trimStart s = x :: t -> isSpace x = false.
Proof.
  induction s as [|c s IH]; simpl; intros x t H; [discriminate|].
  destruct (isSpace c) eqn:E; [eauto|]. now inversion H; subst.
Qed.

Lemma trimStart_fixed : forall s,
  match s with x :: _ => isSpace x = false | [] => True end ->
  Str.trimStart s = s.
Proof. intros [|x s] H; simpl; [reflexivity | now rewrite H]. Qed.

(** A trimmed string neither begins nor ends with white space. *)
Lemma trim_ends : forall s,
  match Str.trim s with x :: _ => isSpace x = false | [] => True end
  /\ match rev (Str.trim s) with x :: _ => isSpace x = false | [] => True end.
Proof.
  intros s. unfold Str.trim, Str.trimEnd.
  set (t := Str.trimStart s).
  destruct (trimStart_suffix (rev t)) as [pre Hpre].
  rewrite rev_involutive. split.
  - destruct (rev (Str.trimStart (rev t))) as [|x u] eqn:E; [exact I|].
    assert (Ht : t = (x :: u) ++ rev pre).
    { rewrite <- E, <- rev_app_distr, <- Hpre. now rewrite rev_involutive. }
    destruct t as [|y t'] eqn:Et; [discriminate|].
    inversion Ht; subst y. subst t. now apply trimStart_head in Et.
  - destruct (Str.trimStart (rev t)) as [|x u] eqn:E; [exact I|].
    now apply trimStart_head in E.
Qed.

(** Trimming twice is trimming once. *)
Lemma trim_idempotent : forall s, Str.trim (Str.trim s) = Str.trim s.
Proof.
  intros s. destruct (trim_ends s) as [Hh Hl].
  set (t := Str.trim s) in *. unfold Str.trim, Str.trimEnd.
  rewrite (trimStart_fixed t Hh), (trimStart_fixed (rev t) Hl).
  apply rev_involutive.
Qed.

(** The lines of a text are not empty, are trimmed, hold no line feed
    and only code units of the text. *)
Lemma linesOf_line : forall text line,
  In line (linesOf text) ->
  line <> [] /\ Str.trim line = line /\ ~ In newline line
  /\ forall x, In x line -> In x text.
Proof.
  unfold linesOf. intros text line H.
  apply filter_In in H. destruct H as [H Hlen].
  apply in_map_iff in H. destruct H as (piece & <- & Hp).
  split; [|split; [|split]].
  - intros E. rewrite E in Hlen. discriminate.
  - apply trim_idempotent.
  - intros Hn. apply trim_incl in Hn. now apply (split_no_sep _ _ _ Hp).
  - intros x Hx. apply trim_incl in Hx. now apply (split_incl _ _ _ _ Hp).
Qed.

(** ** Texts without digits *)

Lemma demands_digit_numberToken : demands isDigit numberToken.
Proof. simpl. auto. Qed.

Lemma demands_digit_amount : forall p,
  In p amountPatterns -> demands isDigit (body p).
Proof.
  intros p H. simpl in H.
  repeat (destruct H as [<-|H]; [simpl; auto 10|]). contradiction.
Qed.

Lemma demands_digit_date : forall p,
  In p datePatterns -> demands isDigit (body p).
Proof.
  intros p H. simpl in H.
  repeat (destruct H as [<-|H]; [simpl; auto 10|]). contradiction.
Qed.

Lemma demands_digit_pricedLine : demands isDigit pricedLine.
Proof. simpl. auto 10. Qed.

Lemma amountLoop_none : forall text ps,
  (forall p, In p ps -> stringMatch text p = Null) ->
  amountLoop text ps = None.
Proof.
  induction ps as [|p ps IH]; simpl; intros H; [reflexivity|].
  unfold tryPattern at 1. rewrite (H p (or_introl eq_refl)). auto.
Qed.

Lemma itemLoop_none : forall lines,
  (forall line, In line lines -> test pricedLine line = false) ->
  itemLoop lines = [].
Proof.
  induction lines as [|line lines IH]; simpl; intros H; [reflexivity|].
  rewrite (H line (or_introl eq_refl)). simpl. auto.
Qed.

Section Digitless.

Variable Date : Type.
Variable newDate : jsstring -> option Date.
Variable now : Date.
Variable toLowerCase : jsstring -> jsstring.

Lemma dateLoop_none : forall text ps,
  (forall p, In p ps -> stringMatch text p = Null) ->
  dateLoop newDate text ps = None.
Proof.
  induction ps as [|p ps IH]; simpl; intros H; [reflexivity|].
  unfold tryDate at 1. rewrite (H p (or_introl eq_refl)). auto.
Qed.

(** X1: a text without any digit has no amount, no date and no item, and
    [processReceipt] fails on it, with [EmptyInput] when it is blank and
    with [AmountNotFound] otherwise. *)
Theorem digitless_text : forall text,
  (forall x, In x text -> isDigit x = false) ->
  extractAmount text = None
  /\ extractDate newDate text = None
  /\ extractItems text = []
  /\ processReceipt newDate now toLowerCase (Text text)
     = Failure (if Nat.eqb (length (Str.trim text)) 0
                then EmptyInput else AmountNotFound).
Proof.
  intros text Hd.
  assert (Ha : extractAmount text = None).
  { apply amountLoop_none. intros p Hp.
    apply (demands_no_stringMatch isDigit); [|assumption].
    now apply demands_digit_amount. }
  split; [assumption|]. split; [|split].
  - apply dateLoop_none. intros p Hp.
    apply (demands_no_stringMatch isDigit); [|assumption].
    now apply demands_digit_date.
  - apply itemLoop_none. intros line Hl. apply exec_none_test.
    apply (demands_no_match isDigit); [exact demands_digit_pricedLine|].
    intros x Hx. apply Hd. now apply (linesOf_line text line Hl).
  - rewrite process_text, Ha.
    destruct (Nat.eqb (length (Str.trim text)) 0); reflexivity.
Qed.

End Digitless.

(** The text "random unrelated text with no numbers" has no digit. *)
Lemma digitless_text_witness :
  (forall x, In x (js "random unrelated text with no numbers") ->
             isDigit x = false)
  /\ extractAmount (js "random unrelated text with no numbers") = None
  /\ extractDate Runtime.newDate (js "random unrelated text with no numbers")
     = None
  /\ extractItems (js "random unrelated text with no numbers") = []
  /\ Runtime.process (Text (js "random unrelated text with no numbers"))
     = Failure
         (if Nat.eqb
               (length (Str.trim (js "random unrelated text with no numbers")))
               0
          then EmptyInput else AmountNotFound).
Proof.
  assert (H : forall x, In x (js "random unrelated text with no numbers") ->
                        isDigit x = false).
  { intros x Hx. vm_compute in Hx.
    repeat (destruct Hx as [<-|Hx]; [reflexivity|]). contradiction. }
  split; [exact H|].
  exact (digitless_text Runtime.Date Runtime.newDate Runtime.now
           Runtime.toLowerCase _ H).
Defined.

(** ** Texts without keyword and without lower-case marker *)

Lemma eqci_sym_letter : forall l x,
  eqci l x = true -> isLowerLetter l = true ->
  x = l \/ x = (l - 32)%N.
Proof.
  unfold eqci, isLowerLetter, isAscii, asciiLower, isUpper.
  intros l x H Hl.
  apply andb_true_iff in Hl. destruct Hl as [Hl1 Hl2].
  apply N.leb_le in Hl1, Hl2.
  destruct (N.ltb_spec l 128); [|lia]. simpl in H.
  destruct (N.ltb_spec x 128); simpl in H.
  - destruct (N.leb_spec 65 l), (N.leb_spec l 90); simpl in H; try lia.
    destruct (N.leb_spec 65 x), (N.leb_spec x 90); simpl in H;
      apply N.eqb_eq in H; lia.
  - apply N.eqb_eq in H. now left.
Qed.

Lemma amountCue_false : forall x,
  x <> 97%N -> x <> 65%N -> x <> 114%N -> x <> rupee ->
  amountCue x = false.
Proof.
  intros x Ha HA Hr Hp. unfold amountCue.
  destruct (eqci 97%N x) eqn:E1.
  - destruct (eqci_sym_letter 97%N x E1 eq_refl) as [E|E];
      [congruence | exfalso; apply HA; rewrite E; reflexivity].
  - unfold eqc.
    destruct (N.eqb_spec 114%N x); [congruence|].
    destruct (N.eqb_spec rupee x); [congruence | reflexivity].
Qed.

Lemma demands_cue_amount : forall p,
  In p amountPatterns -> demands amountCue (body p).
Proof.
  assert (Ha : forall x, eqci 97%N x = true -> amountCue x = true).
  { intros x H. unfold amountCue. now rewrite H. }
  assert (Hr : forall x, eqc 114%N x = true -> amountCue x = true).
  { intros x H. unfold amountCue. rewrite H.
    now rewrite orb_true_r. }
  assert (Hp : forall x, eqc rupee x = true -> amountCue x = true).
  { intros x H. unfold amountCue. rewrite H. apply orb_true_r. }
  intros p H. simpl in H.
  repeat (destruct H as [<-|H]; [simpl; auto 20|]). contradiction.
Qed.

(** X2: the two marker patterns are case-sensitive and every keyword of
    the other two holds the letter a, so a text without a, A, lower-case
    r and rupee sign has no amount, whatever numbers it holds. *)
Theorem uncued_text_no_amount : forall text,
  (forall x, In x text ->
             x <> N_of_ascii "a" /\ x <> N_of_ascii "A"
             /\ x <> N_of_ascii "r" /\ x <> rupee) ->
  extractAmount text = None.
Proof.
  intros text H. apply amountLoop_none. intros p Hp.
  apply (demands_no_stringMatch amountCue).
  - now apply demands_cue_amount.
  - intros x Hx. destruct (H x Hx) as (Ha & HA & Hr & Hru).
    now apply amountCue_false.
Qed.

(** No amount is found in "COFFEE Rs.120", whose marker is capitalized. *)
Lemma uncued_text_no_amount_witness :
  (forall x, In x (js "COFFEE Rs.120") ->
             x <> N_of_ascii "a" /\ x <> N_of_ascii "A"
             /\ x <> N_of_ascii "r" /\ x <> rupee)
  /\ extractAmount (js "COFFEE Rs.120") = None.
Proof.
  assert (H : forall x, In x (js "COFFEE Rs.120") ->
                        x <> N_of_ascii "a" /\ x <> N_of_ascii "A"
                        /\ x <> N_of_ascii "r" /\ x <> rupee).
  { intros x Hx. vm_compute in Hx.
    repeat (destruct Hx as [<-|Hx]; [repeat split; discriminate|]).
    contradiction. }
  split; [exact H|]. exact (uncued_text_no_amount _ H).
Defined.

(** ** The merchant *)

(** [!line.match(/\d+/)] holds exactly for the lines without a digit. *)
Lemma test_digits : forall line,
  test (Plus digit) line = false <-> forall x, In x line -> isDigit x = false.
Proof.
  intros line. split.
  - intros H x Hx. destruct (isDigit x) eqn:E; [|reflexivity].
    apply in_split in Hx. destruct Hx as (l1 & l2 & ->).
    assert (Ht : test (Plus digit) (l1 ++ x :: l2) = true).
    { apply test_lang. exists l1, [x], l2. split; [reflexivity|].
      change [x] with ([x] ++ []). apply L_seq; [|apply L_star_nil].
      now apply L_chr. }
    congruence.
  - intros H. apply exec_none_test.
    apply (demands_no_match isDigit); [simpl; auto | assumption].
Qed.

Section Merchant.

Variable toLowerCase : jsstring -> jsstring.


End Merchant.


(** ** Patterns that match only where an earlier pattern matches *)

Lemma lang_seq_inv : forall r1 r2 w,
  lang (Seq r1 r2) w -> exists u v, w = u ++ v /\ lang r1 u /\ lang r2 v.
Proof. intros r1 r2 w L. inversion L; subst. eauto. Qed.

Lemma lang_chr_inv : forall p w,
  lang (Chr p) w -> exists x, w = [x] /\ p x = true.
Proof. intros p w L. inversion L; subst. eauto. Qed.

(** A text with a match of [r1 r2] has a match of [r2]. *)
Lemma test_seq_right : forall r1 r2 s,
  test (Seq r1 r2) s = true -> test r2 s = true.
Proof.
  intros r1 r2 s H. apply test_lang in H.
  destruct H as (pre & w & post & -> & L).
  apply lang_seq_inv in L. destruct L as (u & v & -> & _ & Lv).
  apply test_lang. exists (pre ++ u), v, post.
  split; [|assumption]. now rewrite <- !app_assoc.
Qed.

Lemma stringMatch_null_test : forall s pat,
  global pat = NoG -> (stringMatch s pat = Null <-> test (body pat) s = false).
Proof.
  intros s pat Hg. unfold stringMatch, test. rewrite Hg.
  destruct (exec (body pat) s); split; congruence.
Qed.

(** Every word of the bare-total pattern is a word of the labelled-total
    pattern. *)
Lemma bareTotal_labeledTotal : forall w,
  lang (body bareTotal) w -> lang (body labeledTotal) w.
Proof.
  intros w L. simpl in L.
  apply lang_seq_inv in L. destruct L as (t & w1 & -> & Lt & L).
  apply lang_seq_inv in L. destruct L as (sp & n & -> & Lsp & Ln).
  unfold Plus in Lsp.
  apply lang_seq_inv in Lsp. destruct Lsp as (a & b & -> & La & Lb).
  simpl. apply L_seq; [now apply L_alt_l|].
  apply L_seq.
  - apply L_star_cons; [assumption | | assumption].
    apply lang_chr_inv in La. destruct La as (x & -> & _). discriminate.
  - change n with ([] ++ [] ++ n). apply L_seq.
    + apply L_alt_r. constructor.
    + apply L_seq; [apply L_star_nil | assumption].
Qed.

(** X4: the bare-total pattern matches only in texts in which the
    labelled-total pattern matches: when the labelled-total pattern has no
    match, the amount is decided by the two marker patterns alone. *)
Theorem bareTotal_shadowed : forall text,
  stringMatch text labeledTotal = Null ->
  stringMatch text bareTotal = Null
  /\ extractAmount text = amountLoop text [markerLed; markerTrailed].
Proof.
  intros text H.
  assert (Hb : stringMatch text bareTotal = Null).
  { apply stringMatch_null_test; [reflexivity|].
    apply stringMatch_null_test in H; [|reflexivity].
    destruct (test (body bareTotal) text) eqn:E; [|reflexivity].
    apply test_lang in E. destruct E as (pre & w & post & -> & L).
    apply bareTotal_labeledTotal in L.
    assert (Ht : test (body labeledTotal) (pre ++ w ++ post) = true)
      by (apply test_lang; eauto).
    congruence. }
  split; [assumption|].
  unfold extractAmount, amountPatterns. cbn [amountLoop].
  unfold tryPattern at 1. rewrite H.
  destruct (tryPattern text markerLed); [reflexivity|].
  destruct (tryPattern text markerTrailed); [reflexivity|].
  unfold tryPattern. now rewrite Hb.
Qed.

(** The text "rs 100" has no keyword. *)
Lemma bareTotal_shadowed_witness :
  stringMatch (js "rs 100") labeledTotal = Null
  /\ stringMatch (js "rs 100") bareTotal = Null
  /\ extractAmount (js "rs 100")
     = amountLoop (js "rs 100") [markerLed; markerTrailed].
Proof.
  assert (H : stringMatch (js "rs 100") labeledTotal = Null)
    by (vm_compute; reflexivity).
  split; [exact H|]. exact (bareTotal_shadowed _ H).
Defined.

Section DateTiers.

Variable Date : Type.
Variable newDate : jsstring -> option Date.

(** X5: the labelled date pattern matches only in texts in which the
    numeric date pattern matches: when the first date pattern has no
    match, the date is the one of the month-name pattern, or none. *)
Theorem labeledDate_shadowed : forall text,
  stringMatch text slashDate = Null ->
  stringMatch text labeledDate = Null
  /\ extractDate newDate text = tryDate newDate text monthNameDate.
Proof.
  intros text H.
  assert (Hl : stringMatch text labeledDate = Null).
  { apply stringMatch_null_test; [reflexivity|].
    apply stringMatch_null_test in H; [|reflexivity].
    destruct (test (body labeledDate) text) eqn:E; [|reflexivity].
    simpl in E. apply test_seq_right, test_seq_right in E.
    simpl in H. congruence. }
  split; [assumption|].
  change (extractDate newDate text)
    with (dateLoop newDate text [slashDate; monthNameDate; labeledDate]).
  cbn [dateLoop]. unfold tryDate at 1. rewrite H.
  destruct (tryDate newDate text monthNameDate); [reflexivity|].
  unfold tryDate. now rewrite Hl.
Qed.

End DateTiers.

(** The text "Date: 5 Jan 24" has no numeric date. *)
Lemma labeledDate_shadowed_witness :
  stringMatch (js "Date: 5 Jan 24") slashDate = Null
  /\ stringMatch (js "Date: 5 Jan 24") labeledDate = Null
  /\ extractDate Runtime.newDate (js "Date: 5 Jan 24")
     = tryDate Runtime.newDate (js "Date: 5 Jan 24") monthNameDate.
Proof.
  assert (H : stringMatch (js "Date: 5 Jan 24") slashDate = Null)
    by (vm_compute; reflexivity).
  split; [exact H|].
  exact (labeledDate_shadowed Runtime.Date Runtime.newDate _ H).
Defined.

(** ** Whole numbers are read exactly *)

Lemma Qred_whole : forall n : Z, Qred (n # 1)%Q = (n # 1)%Q.
Proof.
  intros n. unfold Qred.
  generalize (Z.ggcd_gcd n 1) (Z.ggcd_correct_divisors n 1).
  destruct (Z.ggcd n 1) as (g, (a, b)). simpl.
  rewrite Z.gcd_1_r. intros -> [Ha Hb].
  rewrite Z.mul_1_l in Ha, Hb. now subst.
Qed.

Lemma roundHalfEven_whole : forall a : Z, roundHalfEven a 1 = a.
Proof.
  intros a. unfold roundHalfEven.
  now rewrite Z.mod_1_r, Z.div_1_r.
Qed.

(** An integer below [2 ^ 53] is a binary64 value: [toDouble] returns it
    as it is. *)
Lemma toDouble_whole : forall n : Z,
  (0 <= n < 2 ^ 53)%Z -> toDouble n 1 = Finite (inject_Z n).
Proof.
  intros n [H0 H53]. unfold toDouble.
  destruct (Z.eqb_spec n 0) as [->|Hn]; [reflexivity|].
  assert (Hpos : (0 < n)%Z) by lia.
  assert (He : ilog2 n 1 = Z.log2 n).
  { unfold ilog2, scaled. change (Z.log2 1) with 0%Z. rewrite Z.sub_0_r.
    pose proof (Z.log2_nonneg n) as Hl.
    destruct (Z.leb_spec 0 (Z.log2 n)); [|lia].
    pose proof (Z.log2_spec n Hpos) as [Hlo _].
    destruct (Z.ltb_spec n (1 * 2 ^ Z.log2 n)); [lia | reflexivity]. }
  rewrite He.
  assert (Hl52 : (0 <= Z.log2 n <= 52)%Z).
  { split; [apply Z.log2_nonneg|].
    assert (Z.log2 n < 53)%Z by (apply Z.log2_lt_pow2; lia). lia. }
  rewrite Z.max_l by lia. unfold scaled.
  destruct (Z.leb_spec 0 (Z.log2 n - 52)) as [Hge|Hlt].
  - assert (E : (Z.log2 n - 52 = 0)%Z) by lia. rewrite E.
    change (1 * 2 ^ 0)%Z with 1%Z. rewrite roundHalfEven_whole.
    change (2 ^ 0)%Z with 1%Z. rewrite Z.mul_1_r.
    destruct (Z.leb_spec (2 ^ 1024) n) as [Hbig|_]; [|reflexivity].
    exfalso. assert (2 ^ 53 < 2 ^ 1024)%Z by reflexivity. lia.
  - rewrite roundHalfEven_whole.
    replace (- (Z.log2 n - 52))%Z with (52 - Z.log2 n)%Z by lia.
    set (k := (52 - Z.log2 n)%Z).
    assert (Hk : (0 < 2 ^ k)%Z) by (apply Z.pow_pos_nonneg; lia).
    unfold inject_Z. rewrite <- (Qred_whole n). f_equal.
    apply Qred_complete.
    unfold Qeq. simpl. rewrite Z2Pos.id by assumption. lia.
Qed.

(** ** The matcher on texts of a known shape *)

Lemma digit_cases : forall d,
  isDigit d = true -> In d [48; 49; 50; 51; 52; 53; 54; 55; 56; 57]%N.
Proof.
  unfold isDigit. intros d H. apply andb_true_iff in H.
  destruct H as [H1 H2]. apply N.leb_le in H1, H2. simpl. lia.
Qed.

Ltac by_digit H :=
  apply digit_cases in H; simpl in H;
  repeat (destruct H as [<-|H]; [reflexivity|]); contradiction.

Lemma digit_not_space : forall d, isDigit d = true -> isSpace d = false.
Proof. intros d H. by_digit H. Qed.

Lemma digit_not_colonOrSpace : forall d,
  isDigit d = true -> colonOrSpace d = false.
Proof. intros d H. by_digit H. Qed.

Lemma digit_not_marker : forall d,
  isDigit d = true -> eqci 114%N d = false /\ eqc rupee d = false.
Proof. intros d H. split; by_digit H. Qed.

Lemma digit_amountChar : forall d,
  isDigit d = true -> notAmountChar d = false /\ eqc comma d = false.
Proof. intros d H. split; by_digit H. Qed.

Lemma m_seq_some : forall (R : Type) r1 r2 s c
                          (k : jsstring -> captures -> option R) y,
  m r1 s c (fun s' c' => m r2 s' c' k) = Some y ->
  m (Seq r1 r2) s c k = Some y.
Proof. intros. assumption. Qed.

Lemma m_alt_l_some : forall (R : Type) r1 r2 s c
                            (k : jsstring -> captures -> option R) y,
  m r1 s c k = Some y -> m (Alt r1 r2) s c k = Some y.
Proof. intros R r1 r2 s c k y H. simpl. now rewrite H. Qed.

Lemma m_alt_r_some : forall (R : Type) r1 r2 s c
                            (k : jsstring -> captures -> option R) y,
  m r1 s c k = None -> m r2 s c k = Some y -> m (Alt r1 r2) s c k = Some y.
Proof. intros R r1 r2 s c k y H1 H2. simpl. now rewrite H1. Qed.

Lemma m_alt_none : forall (R : Type) r1 r2 s c
                          (k : jsstring -> captures -> option R),
  m r1 s c k = None -> m r2 s c k = None -> m (Alt r1 r2) s c k = None.
Proof. intros R r1 r2 s c k H1 H2. simpl. now rewrite H1. Qed.

Lemma m_eps_some : forall (R : Type) s c
                          (k : jsstring -> captures -> option R) y,
  k s c = Some y -> m Eps s c k = Some y.
Proof. intros. assumption. Qed.

Lemma m_chr_some : forall (R : Type) p x s c
                          (k : jsstring -> captures -> option R) y,
  p x = true -> k s c = Some y -> m (Chr p) (x :: s) c k = Some y.
Proof. intros R p x s c k y Hp Hk. simpl. now rewrite Hp. Qed.

Lemma m_chr_none : forall (R : Type) p x s c
                          (k : jsstring -> captures -> option R),
  p x = false -> m (Chr p) (x :: s) c k = None.
Proof. intros R p x s c k Hp. simpl. now rewrite Hp. Qed.

(** A literal word is matched at the front of the input, code unit by
    code unit. *)
Lemma m_word_some : forall (R : Type) eq w w' s c
                           (k : jsstring -> captures -> option R) y,
  Forall2 (fun a b => eq a b = true) w w' ->
  k s c = Some y -> m (word eq w) (w' ++ s) c k = Some y.
Proof.
  intros R eq w w' s c k y F Hk. revert k Hk.
  induction F as [|a b w w' Hab F IH]; intros k Hk; [exact Hk|].
  destruct F as [|a2 b2 w w' Hab2 F].
  - simpl. now rewrite Hab.
  - change (word eq (a :: a2 :: w))
      with (Seq (Chr (eq a)) (word eq (a2 :: w))).
    simpl app. apply m_seq_some. apply m_chr_some; [assumption|].
    now apply IH.
Qed.

(** A star over a class takes the longest run of the class when the rest
    of the pattern accepts what follows the run. *)
Lemma m_star_run : forall (R : Type) p w rest c
                          (k : jsstring -> captures -> option R) y,
  (forall x, In x w -> p x = true) ->
  match rest with x :: _ => p x = false | [] => True end ->
  k rest c = Some y ->
  m (Star (Chr p)) (w ++ rest) c k = Some y.
Proof.
  intros R p w rest c k y Hw Hrest Hk.
  assert (Hfuel : forall n, length (w ++ rest) <= n ->
            (fix iter (n : nat) (s : jsstring) (c : captures) : option R :=
               match n with
               | O => k s c
               | S n' =>
                   match m (Chr p) s c
                           (fun s' c' =>
                              if Nat.ltb (length s') (length s)
                              then iter n' s' c' else None) with
                   | Some res => Some res
                   | None => k s c
                   end
               end) n (w ++ rest) c = Some y).
  { induction w as [|a w IH]; intros n Hn.
    - simpl app. destruct n as [|n]; [exact Hk|].
      destruct rest as [|x rest]; simpl; [exact Hk|].
      now rewrite Hrest.
    - destruct n as [|n]; [simpl in Hn; lia|].
      simpl app. cbn [m]. rewrite (Hw a (or_introl eq_refl)).
      assert (Hlt : Nat.ltb (length (w ++ rest)) (length (a :: w ++ rest))
                    = true) by (apply Nat.ltb_lt; simpl; lia).
      rewrite Hlt. rewrite IH; [reflexivity | |].
      + intros x Hx. apply Hw. now right.
      + simpl in Hn. lia. }
  simpl. apply Hfuel. lia.
Qed.

(** A number token made of digits alone, at the end of the input. *)
Lemma m_numberToken_digits : forall (R : Type) ds c
                                    (k : jsstring -> captures -> option R) y,
  ds <> [] -> (forall x, In x ds -> isDigit x = true) ->
  k [] ((1, ds) :: c) = Some y ->
  m (Group 1 numberToken) ds c k = Some y.
Proof.
  intros R ds c k y Hne Hd Hk. destruct ds as [|d ds]; [contradiction|].
  change (m (Group 1 numberToken) (d :: ds) c k)
    with (m numberToken (d :: ds) c
            (fun s' c' =>
               k s' ((1, firstn (length (d :: ds) - length s') (d :: ds))
                       :: c'))).
  unfold numberToken, Plus. apply m_seq_some, m_seq_some.
  apply m_chr_some; [apply Hd; now left|].
  rewrite <- (app_nil_r ds) at 1. apply m_star_run.
  - intros x Hx. apply Hd. now right.
  - exact I.
  - simpl. rewrite firstn_all. exact Hk.
Qed.

Lemma filter_all : forall (A : Type) (f : A -> bool) l,
  (forall x, In x l -> f x = true) -> filter f l = l.
Proof.
  induction l as [|a l IH]; simpl; intros H; [reflexivity|].
  rewrite (H a (or_introl eq_refl)). f_equal. auto.
Qed.

Lemma span_all : forall p s,
  (forall x, In x s -> p x = true) -> span p s = (s, []).
Proof.
  induction s as [|a s IH]; simpl; intros H; [reflexivity|].
  rewrite (H a (or_introl eq_refl)), IH; auto.
Qed.

Lemma digitsValue_nonneg : forall ds,
  (forall x, In x ds -> isDigit x = true) -> (0 <= digitsValue ds)%Z.
Proof.
  unfold digitsValue. intros ds.
  assert (H : forall acc, (0 <= acc)%Z ->
            (forall x, In x ds -> isDigit x = true) ->
            (0 <= fold_left (fun a x => 10 * a + (Z.of_N x - 48)) ds acc)%Z).
  { induction ds as [|d ds IH]; cbn [fold_left]; intros acc Ha Hd;
      [assumption|].
    apply IH; [|intros x Hx; apply Hd; now right].
    assert (Hr : isDigit d = true) by (apply Hd; now left).
    unfold isDigit in Hr. apply andb_true_iff in Hr. destruct Hr as [Hr _].
    apply N.leb_le in Hr. lia. }
  intros Hd. now apply H.
Qed.

Lemma Str_trimStart_digits : forall ds,
  (forall x, In x ds -> isDigit x = true) -> Str.trimStart ds = ds.
Proof.
  intros [|d ds] Hd; simpl; [reflexivity|].
  now rewrite (digit_not_space d (Hd d (or_introl eq_refl))).
Qed.

(** What [parseFloat] reads in a numeral of digits. *)
Lemma cleaned_numeral : forall ds,
  ds <> [] -> (forall x, In x ds -> isDigit x = true) ->
  parseFloat (cleanAmount ds) = toDouble (digitsValue ds) 1.
Proof.
  intros ds Hne Hd.
  assert (Hc : cleanAmount ds = ds).
  { unfold cleanAmount, removeAll. rewrite !filter_all; [reflexivity| |].
    - intros x Hx. now rewrite (proj1 (digit_amountChar x (Hd x Hx))).
    - intros x Hx. rewrite filter_all in Hx.
      + now rewrite (proj2 (digit_amountChar x (Hd x Hx))).
      + intros z Hz. now rewrite (proj1 (digit_amountChar z (Hd z Hz))). }
  rewrite Hc. unfold parseFloat.
  rewrite Str_trimStart_digits by assumption.
  rewrite (span_all isDigit ds Hd). rewrite app_nil_r.
  destruct ds; [contradiction | reflexivity].
Qed.

(** ** A numeral after the word total *)

Lemma digits_head : forall ds : jsstring,
  (forall x, In x ds -> isDigit x = true) ->
  match ds with d :: _ => isDigit d = true | [] => True end.
Proof. intros [|d ds] H; [exact I | apply H; now left]. Qed.

Lemma total_numeral_labeled : forall ds,
  ds <> [] -> (forall x, In x ds -> isDigit x = true) ->
  stringMatch (js "total " ++ ds) labeledTotal
  = First (mkResult (js "total " ++ ds) [(1, ds)] []).
Proof.
  intros ds Hne Hd. pose proof (digits_head ds Hd) as Hh.
  assert (H : matchAt (body labeledTotal) (js "total " ++ ds)
              = Some (mkResult (js "total " ++ ds) [(1, ds)] [])).
  { unfold matchAt. simpl body.
    apply m_seq_some. apply m_alt_l_some.
    change (js "total " ++ ds) with (js "total" ++ ([32%N] ++ ds)) at 1.
    apply m_word_some; [repeat constructor|].
    apply m_seq_some. apply m_star_run.
    - intros x [<-|[]]. reflexivity.
    - destruct ds as [|d ds']; [exact I|].
      now apply digit_not_colonOrSpace.
    - apply m_seq_some. unfold Opt. apply m_alt_r_some.
      + destruct ds as [|d ds']; [reflexivity|].
        destruct (digit_not_marker d Hh) as [Hr Hru].
        unfold markeri. apply m_alt_none; [|now apply m_chr_none].
        change (liti "rs") with (Seq (Chr (eqci 114%N)) (Chr (eqci 115%N))).
        cbn [m]. now rewrite Hr.
      + apply m_eps_some. apply m_seq_some.
        rewrite <- (app_nil_l ds) at 1. apply m_star_run.
        * intros x [].
        * destruct ds as [|d ds']; [exact I|].
          now apply digit_not_space.
        * apply m_numberToken_digits; [assumption | assumption|].
          simpl. now rewrite firstn_all. }
  unfold stringMatch. simpl global. rewrite exec_unfold, H. reflexivity.
Qed.

Lemma total_numeral_bare : forall ds,
  ds <> [] -> (forall x, In x ds -> isDigit x = true) ->
  stringMatch (js "total " ++ ds) bareTotal
  = First (mkResult (js "total " ++ ds) [(1, ds)] []).
Proof.
  intros ds Hne Hd. pose proof (digits_head ds Hd) as Hh.
  assert (H : matchAt (body bareTotal) (js "total " ++ ds)
              = Some (mkResult (js "total " ++ ds) [(1, ds)] [])).
  { unfold matchAt. simpl body.
    apply m_seq_some.
    change (js "total " ++ ds) with (js "total" ++ ([32%N] ++ ds)) at 1.
    apply m_word_some; [repeat constructor|].
    apply m_seq_some. unfold Plus. apply m_seq_some.
    apply m_chr_some; [reflexivity|].
    rewrite <- (app_nil_l ds) at 1. apply m_star_run.
    - intros x [].
    - destruct ds as [|d ds']; [exact I|].
      now apply digit_not_colonOrSpace.
    - apply m_numberToken_digits; [assumption | assumption|].
      simpl. now rewrite firstn_all. }
  unfold stringMatch. simpl global. rewrite exec_unfold, H. reflexivity.
Qed.

Lemma reasonable_whole : forall v : Z,
  reasonable (Finite (inject_Z v))
  = ((0 <? v)%Z && (v <? 100000)%Z).
Proof.
  intros v. unfold reasonable, truthy, gt, lt, Qeq_bool, Qle_bool, inject_Z.
  cbn [Qnum Qden]. rewrite !Z.mul_1_r.
  destruct (Z.ltb_spec 0 v), (Z.ltb_spec v 100000), (Z.eqb_spec v 0),
           (Z.leb_spec v 0), (Z.leb_spec 100000 v);
    try reflexivity; lia.
Qed.

Lemma demands_markerCue : forall p,
  In p [markerLed; markerTrailed] -> demands markerCue (body p).
Proof.
  assert (Hr : forall x, eqc 114%N x = true -> markerCue x = true).
  { intros x H. unfold markerCue. now rewrite H. }
  assert (Hp : forall x, eqc rupee x = true -> markerCue x = true).
  { intros x H. unfold markerCue. rewrite H. apply orb_true_r. }
  intros p H. simpl in H.
  repeat (destruct H as [<-|H]; [simpl; auto 20|]). contradiction.
Qed.

Lemma digit_not_markerCue : forall d, isDigit d = true -> markerCue d = false.
Proof. intros d H. by_digit H. Qed.

(** X6: on the word "total", a blank and a numeral of digits whose value
    is below [2 ^ 53], the amount is the value of the numeral when it is
    above 0 and below 100000, and no amount is found otherwise: 0 and
    100000 are refused. *)
Theorem total_numeral_amount : forall ds,
  ds <> [] -> (forall x, In x ds -> isDigit x = true) ->
  (digitsValue ds < 2 ^ 53)%Z ->
  extractAmount (js "total " ++ ds)
  = if ((0 <? digitsValue ds)%Z && (digitsValue ds <? 100000)%Z)
    then Some (Finite (inject_Z (digitsValue ds)))
    else None.
Proof.
  intros ds Hne Hd Hv.
  assert (Hnum : parseFloat (cleanAmount ds)
                 = Finite (inject_Z (digitsValue ds))).
  { rewrite cleaned_numeral by assumption. apply toDouble_whole.
    split; [now apply digitsValue_nonneg | assumption]. }
  assert (Hfirst : forall p,
            stringMatch (js "total " ++ ds) p
            = First (mkResult (js "total " ++ ds) [(1, ds)] []) ->
            tryPattern (js "total " ++ ds) p
            = if ((0 <? digitsValue ds)%Z && (digitsValue ds <? 100000)%Z)
              then Some (Finite (inject_Z (digitsValue ds)))
              else None).
  { intros p Hp. unfold tryPattern. rewrite Hp.
    assert (Hg : firstGroupOrWhole
                   (First (mkResult (js "total " ++ ds) [(1, ds)] [])) = ds).
    { destruct ds; [contradiction | reflexivity]. }
    rewrite Hg, Hnum, reasonable_whole. reflexivity. }
  assert (Hnull : forall p, In p [markerLed; markerTrailed] ->
            tryPattern (js "total " ++ ds) p = None).
  { intros p Hp. unfold tryPattern.
    rewrite (demands_no_stringMatch markerCue); [reflexivity | |].
    - now apply demands_markerCue.
    - intros x Hx. apply in_app_or in Hx. destruct Hx as [Hx|Hx].
      + simpl in Hx.
        repeat (destruct Hx as [<-|Hx]; [reflexivity|]). contradiction.
      + apply digit_not_markerCue. now apply Hd. }
  unfold extractAmount, amountPatterns. cbn [amountLoop].
  rewrite (Hfirst _ (total_numeral_labeled ds Hne Hd)).
  destruct ((0 <? digitsValue ds)%Z && (digitsValue ds <? 100000)%Z);
    [reflexivity|].
  rewrite (Hnull markerLed), (Hnull markerTrailed) by (simpl; auto).
  rewrite (Hfirst _ (total_numeral_bare ds Hne Hd)).
  destruct ((0 <? digitsValue ds)%Z && (digitsValue ds <? 100000)%Z) eqn:E;
    reflexivity.
Qed.

(** The numeral 100000 after "total" is refused. *)
Lemma total_numeral_amount_witness :
  js "100000" <> []
  /\ (forall x, In x (js "100000") -> isDigit x = true)
  /\ (digitsValue (js "100000") < 2 ^ 53)%Z
  /\ extractAmount (js "total " ++ js "100000")
     = if ((0 <? digitsValue (js "100000"))%Z
           && (digitsValue (js "100000") <? 100000)%Z)
       then Some (Finite (inject_Z (digitsValue (js "100000"))))
       else None.
Proof.
  assert (H1 : js "100000" <> []) by discriminate.
  assert (H2 : forall x, In x (js "100000") -> isDigit x = true).
  { intros x Hx. vm_compute in Hx.
    repeat (destruct Hx as [<-|Hx]; [reflexivity|]). contradiction. }
  assert (H3 : (digitsValue (js "100000") < 2 ^ 53)%Z) by reflexivity.
  repeat (split; [assumption|]).
  exact (total_numeral_amount (js "100000") H1 H2 H3).
Defined.

(** ** The categories *)

(** Pruning changes no first match of a test that holds for a keyword as
    soon as it holds for a keyword that contains it. *)
Lemma find_prune : forall (f : jsstring * jsstring -> bool) l seen,
  (forall x y, In x (seen ++ l) -> In y (seen ++ l) ->
               Str.includes (snd x) (snd y) = true -> f x = true ->
               f y = true) ->
  (forall y, In y seen -> f y = false) ->
  find f (prune seen l) = find f l.
Proof.
  intros f. induction l as [|x l IH]; intros seen Hm Hf; [reflexivity|].
  assert (Hnext : f x = false -> find f (prune (seen ++ [x]) l) = find f l).
  { intros Hx. apply IH.
    - rewrite <- app_assoc. exact Hm.
    - intros y Hy. apply in_app_or in Hy.
      destruct Hy as [Hy|[<-|[]]]; auto. }
  cbn [prune find].
  destruct (existsb (fun y => Str.includes (snd x) (snd y)) seen) eqn:E.
  - apply existsb_exists in E. destruct E as (y & Hy & Hi).
    destruct (f x) eqn:Hx; [|now apply Hnext].
    assert (Hfy : f y = true).
    { apply (Hm x y); [| |assumption..].
      - apply in_or_app. right. now left.
      - apply in_or_app. now left. }
    rewrite (Hf y Hy) in Hfy. discriminate.
  - cbn [find]. destruct (f x) eqn:Hx; [reflexivity | now apply Hnext].
Qed.

Lemma liveMappings_pairs :
  flat_map (fun entry => map (pair (fst entry)) (snd entry)) liveMappings
  = prune [] keywordPairs.
Proof. vm_compute. reflexivity. Qed.

Lemma categoryLoop_named : forall toLowerCase text table,
  In (categoryLoop toLowerCase text table) (map fst table ++ [Others]).
Proof.
  intros toLowerCase text. induction table as [|[category keywords] table IH];
    simpl; [now left|].
  destruct (existsb (keywordHit toLowerCase text) keywords);
    [now left | now right].
Qed.

Section Categories.

Variable toLowerCase : jsstring -> jsstring.

Hypothesis toLowerCase_ascii :
  forall s, forallb isAscii s = true -> toLowerCase s = map asciiLower s.

(** X7: six keywords of the table never decide a category, because a
    keyword met earlier by the loops is a substring of each of them:
    [determineCategory] gives the same result on the table without
    them. In particular Utilities is never chosen for "gas" or "mobile",
    nor Entertainment for "mall". *)
Theorem dead_keywords : forall merchant items,
  determineCategory toLowerCase merchant items
  = categoryLoop toLowerCase (searchText toLowerCase merchant items)
      liveMappings.
Proof using toLowerCase_ascii.
  intros merchant items. unfold determineCategory.
  rewrite !categoryLoop_find, liveMappings_pairs. fold keywordPairs.
  rewrite find_prune; [reflexivity| |intros y []].
  simpl app. intros [c1 k1] [c2 k2] H1 H2 Hi Hf. simpl in *.
  unfold keywordHit in *.
  rewrite (keyword_lower toLowerCase toLowerCase_ascii c1 k1 H1) in Hf.
  rewrite (keyword_lower toLowerCase toLowerCase_ascii c2 k2 H2).
  apply includes_spec. apply includes_spec in Hi, Hf.
  now apply (substring_trans k2 k1).
Qed.

End Categories.

(** X8: every category [determineCategory] returns is a value that the
    Transaction schema and the validator of the transaction routes
    accept for [category]. *)
Theorem category_in_schema : forall toLowerCase merchant items,
  In (determineCategory toLowerCase merchant items) schemaCategories.
Proof.
  intros toLowerCase merchant items. unfold determineCategory.
  pose proof (categoryLoop_named toLowerCase
                (searchText toLowerCase merchant items) categoryMappings)
    as H.
  simpl in H. unfold schemaCategories. simpl.
  repeat (destruct H as [<-|H]; [tauto|]). contradiction.
Qed.

(** The category of "GAS BILL" on the runtime [Runtime]. *)
Lemma dead_keywords_witness :
  (forall s, forallb isAscii s = true ->
             Runtime.toLowerCase s = map asciiLower s)
  /\ determineCategory Runtime.toLowerCase (js "GAS BILL") []
     = categoryLoop Runtime.toLowerCase
         (searchText Runtime.toLowerCase (js "GAS BILL") []) liveMappings.
Proof.
  split; [exact runtime_toLowerCase_ascii|].
  exact (dead_keywords Runtime.toLowerCase runtime_toLowerCase_ascii
           (js "GAS BILL") []).
Defined.

Section CaseInsensitive.

Variable toLowerCase : jsstring -> jsstring.

Hypothesis toLowerCase_ascii :
  forall s, forallb isAscii s = true -> toLowerCase s = map asciiLower s.

(** X9: on ASCII input the category does not depend on the case of the
    letters: the merchant and the items in lower case have the category
    of the merchant and the items as they are written. *)
Theorem category_case_insensitive : forall merchant items,
  forallb isAscii merchant = true ->
  (forall it, In it items -> forallb isAscii it = true) ->
  determineCategory toLowerCase (map asciiLower merchant)
    (map (map asciiLower) items)
  = determineCategory toLowerCase merchant items.
Proof using toLowerCase_ascii.
  intros merchant items Hm Hi. unfold determineCategory. f_equal.
  unfold searchText.
  assert (Ha : forallb isAscii (merchant ++ js " " ++ Str.join (js " ") items)
               = true).
  { rewrite !forallb_app, Hm, join_ascii; auto. }
  assert (E : map asciiLower merchant ++ js " "
                ++ Str.join (js " ") (map (map asciiLower) items)
              = map asciiLower
                  (merchant ++ js " " ++ Str.join (js " ") items)).
  { rewrite !map_app, map_join. reflexivity. }
  rewrite E, (toLowerCase_ascii _ Ha).
  rewrite toLowerCase_ascii by now apply map_ascii.
  rewrite map_map. apply map_ext. apply asciiLower_idempotent.
Qed.

End CaseInsensitive.

(** "STARBUCKS" with the item "LATTE". *)
Lemma category_case_insensitive_witness :
  (forall s, forallb isAscii s = true ->
             Runtime.toLowerCase s = map asciiLower s)
  /\ forallb isAscii (js "STARBUCKS") = true
  /\ (forall it, In it [js "LATTE"] -> forallb isAscii it = true)
  /\ determineCategory Runtime.toLowerCase (map asciiLower (js "STARBUCKS"))
       (map (map asciiLower) [js "LATTE"])
     = determineCategory Runtime.toLowerCase (js "STARBUCKS") [js "LATTE"].
Proof.
  assert (H : forall it, In it [js "LATTE"] -> forallb isAscii it = true).
  { intros it [<-|[]]. reflexivity. }
  split; [exact runtime_toLowerCase_ascii|].
  split; [reflexivity|]. split; [exact H|].
  exact (category_case_insensitive Runtime.toLowerCase
           runtime_toLowerCase_ascii (js "STARBUCKS") [js "LATTE"]
           eq_refl H).
Defined.

(** ** The description and the lines behind the fields *)

Section Description.

Variable Date : Type.
Variable newDate : jsstring -> option Date.
Variable now : Date.
Variable toLowerCase : jsstring -> jsstring.

(** X10: the description of a success is never empty; it is "Receipt
    purchase" exactly when neither a merchant nor an item was found, and
    when a merchant was found it is "Purchase at " and the merchant,
    followed by nothing if there is no item. *)
Theorem success_description : forall r d raw,
  processReceipt newDate now toLowerCase r = Success d raw ->
  d_description d <> []
  /\ (d_description d = js "Receipt purchase"
      <-> d_merchant d = None /\ d_items d = [])
  /\ forall name, d_merchant d = Some name ->
       exists suffix, d_description d = js "Purchase at " ++ name ++ suffix
                      /\ (d_items d = [] -> suffix = []).
Proof.
  intros [message|text] d raw H; [discriminate|].
  rewrite process_text in H.
  destruct (Nat.eqb (length (Str.trim text)) 0); [discriminate|].
  destruct (extractAmount text) as [x|]; [|discriminate].
  inversion H; subst; clear H. cbn [d_description d_merchant d_items].
  rewrite describe_cases. cbn [merchant items parseReceiptText].
  destruct (extractMerchant toLowerCase text) as [name|] eqn:Em.
  - apply extractMerchant_long in Em.
    destruct name as [|x0 name]; [simpl in Em; lia|].
    destruct (extractItems text) as [|it its].
    + split; [discriminate|]. split.
      * split; [discriminate | intros [? _]; discriminate].
      * intros n Hn. inversion Hn; subst. exists [].
        split; [now rewrite app_nil_r | reflexivity].
    + split; [discriminate|]. split.
      * split; [discriminate | intros [? _]; discriminate].
      * intros n Hn. inversion Hn; subst.
        exists (js " - " ++ Str.join (js ", ") (firstn 3 (it :: its))).
        split; [reflexivity | discriminate].
  - destruct (extractItems text) as [|it its].
    + split; [discriminate|]. split; [tauto | discriminate].
    + split; [discriminate|]. split.
      * split; [discriminate | intros [_ ?]; discriminate].
      * discriminate.
Qed.

(** X11: no line is both a merchant candidate and a line with a price:
    the line taken as merchant gives no item. *)
Theorem merchant_not_priced : forall line,
  merchantLine toLowerCase line = true -> test pricedLine line = false.
Proof.
  intros line H. unfold merchantLine in H. bool_hyps.
  apply exec_none_test.
  apply (demands_no_match isDigit); [exact demands_digit_pricedLine|].
  now apply test_digits.
Qed.

End Description.

(** The description of the receipt "Milk rs 50". *)
Lemma success_description_witness :
  Runtime.process (Text milk) = Success milkData milkParsed
  /\ d_description milkData <> []
  /\ (d_description milkData = js "Receipt purchase"
      <-> d_merchant milkData = None /\ d_items milkData = [])
  /\ forall name, d_merchant milkData = Some name ->
       exists suffix,
         d_description milkData = js "Purchase at " ++ name ++ suffix
         /\ (d_items milkData = [] -> suffix = []).
Proof.
  split; [exact milk_success|].
  exact (success_description Runtime.Date Runtime.newDate Runtime.now
           Runtime.toLowerCase (Text milk) milkData milkParsed milk_success).
Defined.

(** The line "Fresh Mart" qualifies as merchant. *)
Lemma merchant_not_priced_witness :
  merchantLine Runtime.toLowerCase (js "Fresh Mart") = true
  /\ test pricedLine (js "Fresh Mart") = false.
Proof.
  split; [reflexivity|].
  exact (merchant_not_priced Runtime.toLowerCase (js "Fresh Mart") eq_refl).
Defined.

(** ** The callers *)

Section CallerProperties.

Variable Date : Type.
Variable newDate : jsstring -> option Date.
Variable now : Date.
Variable toLowerCase : jsstring -> jsstring.
Variable recognize : jsstring -> recognition.
Variable toNumberV : value Date -> number.
Variable toStringV : value Date -> jsstring.
Variable userId : value Date.
Variable save : value Date -> option jsstring.

(** The object [processReceipt] resolves to has no property [amount]. *)
Lemma result_no_amount : forall o : outcome Date,
  lookup (resultFields o) "amount" = VUndefined.
Proof. intros [d raw|error]; reflexivity. Qed.

(** X12: the upload route never saves a transaction and never unlinks the
    file: it reads [amount] on the object [processReceipt] resolves to,
    which has no such property, the amount being under [data]. For every
    uploaded file it answers 200 with [success: true] and
    [transaction: null], also when the result it embeds is a failure. *)
Theorem uploadRoute_never_saves : forall file,
  rr_saved (uploadRoute newDate now toLowerCase recognize toNumberV
              toStringV userId save file) = []
  /\ rr_unlinked (uploadRoute newDate now toLowerCase recognize toNumberV
                    toStringV userId save file) = []
  /\ match file with
     | None => True
     | Some f =>
         uploadRoute newDate now toLowerCase recognize toNumberV toStringV
           userId save file
         = {| rr_status := 200;
              rr_body :=
                VObj [ ("success", VBool true);
                       ("message",
                        VStr (js "Receipt processed successfully"));
                       ("data",
                        VObj [ ("extractedData",
                                VObj (resultFields
                                        (processReceipt newDate now
                                           toLowerCase
                                           (recognize (u_path f)))));
                               ("transaction", VNull);
                               ("fileUrl",
                                VStr (js "/uploads/" ++ u_filename f)%list);
                               ("fileName", VStr (u_filename f)) ]) ]%string;
              rr_saved := [];
              rr_unlinked := [] |}
     end.
Proof.
  intros [f|]; [|repeat split].
  unfold uploadRoute. rewrite result_no_amount. repeat split.
Qed.

(** X13: [uploadReceipt] hands the uploaded file to [cleanupFile]
    exactly when [processReceipt] fails, and then answers 400 with a
    message that is not empty; otherwise it keeps the file and answers
    with the data of the success under the type "expense", a suggested
    amount above 0 and below 100000 and a confidence from 40 to 100. *)
Theorem uploadReceipt_reply : forall f receiptId,
  match uploadReceipt newDate now toLowerCase recognize (Some f) receiptId with
  | (Rejected status message _, cleaned) =>
      status = 400%Z /\ message <> [] /\ cleaned = [u_path f]
      /\ exists error,
           processReceipt newDate now toLowerCase (recognize (u_path f))
           = Failure error
  | (Accepted _ _ extractedData confidence suggested, cleaned) =>
      cleaned = []
      /\ (exists raw,
            processReceipt newDate now toLowerCase (recognize (u_path f))
            = Success (td_data extractedData) raw)
      /\ td_type extractedData = js "expense"
      /\ sg_amount suggested = d_amount (td_data extractedData)
      /\ (exists q, sg_amount suggested = Some (Finite q)
                    /\ (0 < q)%Q /\ (q < 100000)%Q)
      /\ (40 <= confidence <= 100)%Z
  end.
Proof.
  intros f receiptId. unfold uploadReceipt.
  destruct (processReceipt newDate now toLowerCase (recognize (u_path f)))
    as [d raw|error] eqn:E.
  - split; [reflexivity|]. split; [eauto|]. split; [reflexivity|].
    split; [reflexivity|]. cbn [sg_amount].
    destruct (recognize (u_path f)) as [message|text]; [discriminate|].
    rewrite process_text in E.
    destruct (Nat.eqb (length (Str.trim text)) 0); [discriminate|].
    destruct (extractAmount text) as [x|] eqn:Ea; [|discriminate].
    inversion E; subst; clear E. cbn [d_amount d_confidence]. split.
    + apply extractAmount_reasonable in Ea.
      destruct (reasonable_bounds _ Ea) as (q & -> & Hq). eauto.
    + rewrite confidence_points, Ea. unfold points.
      destruct (present (extractMerchant toLowerCase text)),
               (present (extractDate newDate text)),
               (Nat.ltb 0 (length (extractItems text))); cbn; lia.
  - split; [reflexivity|]. split; [|split; [reflexivity | eauto]].
    destruct error; discriminate.
Qed.

End CallerProperties.

(** ** The file filter *)

Lemma eqc_eq : forall a b, eqc a b = true <-> a = b.
Proof. intros a b. unfold eqc. apply N.eqb_eq. Qed.

Lemma lang_alt_inv : forall r1 r2 u,
  lang (Alt r1 r2) u -> lang r1 u \/ lang r2 u.
Proof. intros r1 r2 u L. inversion L; subst; auto. Qed.

(** The only word of a literal is the literal. *)
Lemma lang_word : forall w u, lang (word eqc w) u <-> u = w.
Proof.
  induction w as [|a w IH]; intros u.
  - simpl. split; [intros L; now inversion L | intros ->; constructor].
  - destruct w as [|a2 w].
    + simpl. split.
      * intros L. apply lang_chr_inv in L. destruct L as (x & -> & Hx).
        apply eqc_eq in Hx. now subst.
      * intros ->. constructor. now apply eqc_eq.
    + change (word eqc (a :: a2 :: w))
        with (Seq (Chr (eqc a)) (word eqc (a2 :: w))). split.
      * intros L. apply lang_seq_inv in L.
        destruct L as (u1 & u2 & -> & L1 & L2).
        apply lang_chr_inv in L1. destruct L1 as (x & -> & Hx).
        apply eqc_eq in Hx. apply IH in L2. now subst.
      * intros ->. change (a :: a2 :: w) with ([a] ++ a2 :: w).
        apply L_seq; [constructor; now apply eqc_eq | now apply IH].
Qed.

(** [allowedTypes.test(s)] holds exactly when one of the four words
    occurs in [s]. *)
Lemma test_allowedTypes : forall s,
  test allowedTypes s = true <-> exists w, In w allowedWords /\ substring w s.
Proof.
  intros s. rewrite test_lang. unfold allowedTypes, lit, substring. split.
  - intros (pre & u & post & -> & L).
    apply lang_alt_inv in L. destruct L as [L|L];
      [|apply lang_alt_inv in L; destruct L as [L|L];
        [|apply lang_alt_inv in L; destruct L as [L|L]]];
      apply lang_word in L; subst u;
      match goal with
      | |- exists w, _ /\ exists a b, _ ++ ?x ++ _ = _ =>
          exists x; split; [simpl; tauto | now exists pre, post]
      | |- exists w, _ /\ exists a b, _ = _ ++ ?x ++ _ =>
          exists x; split; [simpl; tauto | now exists pre, post]
      end.
  - intros (w & Hw & pre & post & ->). exists pre, w, post.
    split; [reflexivity|]. simpl in Hw.
    destruct Hw as [<-|[<-|[<-|[<-|[]]]]].
    + apply L_alt_l. now apply lang_word.
    + apply L_alt_r, L_alt_l. now apply lang_word.
    + apply L_alt_r, L_alt_r, L_alt_l. now apply lang_word.
    + apply L_alt_r, L_alt_r, L_alt_r. now apply lang_word.
Qed.

(** X14: the file filter of the receipt controller accepts a file
    exactly when one of the words jpeg, jpg, png, pdf occurs somewhere
    in the lower-cased extension of its name and one of them occurs
    somewhere in its mimetype as it is written: the tests are substring
    tests, and the one on the mimetype is case-sensitive. *)
Theorem fileFilter_accepts : forall toLowerCase extname originalname mimetype,
  fileFilter toLowerCase extname originalname mimetype = true
  <-> (exists w, In w allowedWords
                 /\ substring w (toLowerCase (extname originalname)))
      /\ (exists w, In w allowedWords /\ substring w mimetype).
Proof.
  intros toLowerCase extname originalname mimetype. unfold fileFilter.
  rewrite andb_true_iff, !test_allowedTypes. tauto.
Qed.

(** ** The pagination *)

Local Open Scope Z_scope.

Lemma ceil_div_exact : forall m P n, 0 < P -> n * P < m <= (n + 1) * P ->
  - ((- m) / P) = n + 1.
Proof.
  intros m P n HP [Hlo Hhi].
  assert (H : (- m) / P = - (n + 1)).
  { symmetry. apply (Z.div_unique_pos (- m) P (- (n + 1)) ((n + 1) * P - m));
      lia. }
  lia.
Qed.

Lemma roundHalfEven_range : forall A b, 0 < b ->
  A / b <= roundHalfEven A b <= A / b + 1.
Proof.
  intros A b Hb. unfold roundHalfEven.
  destruct (2 * (A mod b) ?= b); [destruct (Z.even (A / b))| |]; lia.
Qed.

Lemma roundHalfEven_up : forall A b, 0 < b -> b < 2 * (A mod b) ->
  roundHalfEven A b = A / b + 1.
Proof.
  intros A b Hb H. unfold roundHalfEven.
  destruct (Z.compare_spec (2 * (A mod b)) b); try lia.
Qed.

Lemma roundHalfEven_exact : forall A b, 0 < b -> A mod b = 0 ->
  roundHalfEven A b = A / b.
Proof.
  intros A b Hb H. unfold roundHalfEven. rewrite H.
  destruct (Z.compare_spec (2 * 0) b); try lia.
Qed.

(** Rounding the quotient of two integers to a grid of step [1 / P] that
    is finer than [2 / b], then taking the ceiling, gives the ceiling of
    the quotient. *)
Lemma ceil_round_quotient : forall a b P,
  0 <= a -> 0 < b -> 0 < P -> b < 2 * P ->
  - ((- roundHalfEven (a * P) b) / P) = (a + b - 1) / b.
Proof.
  intros a b P Ha Hb HP HbP.
  pose proof (Z.div_mod a b ltac:(lia)) as Hab.
  pose proof (Z.mod_pos_bound a b Hb) as Hr.
  set (n := a / b) in *. set (r := a mod b) in *.
  destruct (Z.eq_dec r 0) as [Hr0|Hr0].
  - assert (Ea : a = n * b) by lia.
    assert (EA : a * P = (n * P) * b) by (rewrite Ea; ring).
    rewrite roundHalfEven_exact; [|assumption|].
    + rewrite EA, Z.div_mul by lia.
      replace (- (n * P)) with ((- n) * P) by ring.
      rewrite Z.div_mul by lia.
      replace (a + b - 1) with (n * b + (b - 1)) by lia.
      rewrite Z.div_add_l by lia. rewrite (Z.div_small (b - 1) b) by lia.
      lia.
    + rewrite EA. apply Z.mod_mul. lia.
  - assert (Hrpos : 0 < r) by lia.
    assert (Erhs : (a + b - 1) / b = n + 1).
    { replace (a + b - 1) with ((n + 1) * b + (r - 1)) by lia.
      rewrite Z.div_add_l by lia. rewrite (Z.div_small (r - 1) b) by lia.
      lia. }
    rewrite Erhs. apply ceil_div_exact; [assumption|].
    pose proof (roundHalfEven_range (a * P) b Hb) as [Hlo Hhi].
    pose proof (Z.div_mod (a * P) b ltac:(lia)) as HAP.
    pose proof (Z.mod_pos_bound (a * P) b Hb) as HR.
    set (Q := (a * P) / b) in *. set (R := (a * P) mod b) in *.
    assert (EAP : a * P = n * P * b + r * P) by (rewrite Hab; ring).
    assert (HQlo : n * P <= Q).
    { unfold Q. apply Z.div_le_lower_bound; [assumption|]. nia. }
    assert (HQhi : Q <= n * P + P - 1).
    { assert (Q < n * P + P); [|lia].
      unfold Q. apply Z.div_lt_upper_bound; [assumption|]. nia. }
    split; [|lia].
    destruct (Z.eq_dec Q (n * P)) as [EQ|NQ]; [|lia].
    assert (ER : R = r * P) by nia.
    rewrite roundHalfEven_up; [fold Q; lia | assumption|].
    fold R. rewrite ER. nia.
Qed.

Lemma pow2_pos : forall k, 0 <= k -> 0 < 2 ^ k.
Proof. intros k Hk. apply Z.pow_pos_nonneg; lia. Qed.

Lemma pow2_split : forall x y, 0 <= x -> 0 <= y -> 2 ^ (x + y) = 2 ^ x * 2 ^ y.
Proof. intros. apply Z.pow_add_r; assumption. Qed.

(** [ilog2 n d] is the exponent of the binade of [n / d]. *)
Lemma ilog2_spec : forall n d, 0 < n -> 0 < d ->
  (0 <= ilog2 n d ->
   d * 2 ^ ilog2 n d <= n < 2 * (d * 2 ^ ilog2 n d))
  /\ (ilog2 n d < 0 ->
      d <= n * 2 ^ (- ilog2 n d) < 2 * d).
Proof.
  intros n d Hn Hd. unfold ilog2, scaled.
  pose proof (Z.log2_spec n Hn) as [Hn1 Hn2].
  pose proof (Z.log2_spec d Hd) as [Hd1 Hd2].
  pose proof (Z.log2_nonneg n) as Hln. pose proof (Z.log2_nonneg d) as Hld.
  set (la := Z.log2 n) in *. set (lb := Z.log2 d) in *.
  rewrite Z.pow_succ_r in Hn2, Hd2 by assumption.
  destruct (Z.leb_spec 0 (la - lb)) as [He|He].
  - assert (Ela : 2 ^ la = 2 ^ lb * 2 ^ (la - lb)).
    { rewrite <- pow2_split by lia. f_equal. lia. }
    pose proof (pow2_pos (la - lb) He) as Hp.
    destruct (Z.ltb_spec n (d * 2 ^ (la - lb))) as [Hlt|Hge].
    + destruct (Z.eq_dec (la - lb) 0) as [E0|E0].
      * rewrite E0 in *. change (2 ^ 0) with 1 in *. split; [lia|].
        intros _. change (- (0 - 1)) with 1. change (2 ^ 1) with 2. nia.
      * assert (Ep : 2 ^ (la - lb) = 2 * 2 ^ (la - lb - 1)).
        { rewrite <- Z.pow_succ_r by lia. f_equal. lia. }
        pose proof (pow2_pos (la - lb - 1) ltac:(lia)) as Hp1.
        split; [intros _; nia | lia].
    + split; [intros _; nia | lia].
  - set (j := - (la - lb)) in *.
    assert (Hj : 0 < j) by (unfold j; lia).
    assert (Elb : 2 ^ lb = 2 ^ la * 2 ^ j).
    { rewrite <- pow2_split by lia. f_equal. unfold j. lia. }
    pose proof (pow2_pos j ltac:(lia)) as Hp.
    destruct (Z.ltb_spec (n * 2 ^ j) d) as [Hlt|Hge].
    + split; [lia|]. intros _.
      replace (- (la - lb - 1)) with (Z.succ j) by (unfold j; lia).
      rewrite Z.pow_succ_r by lia. nia.
    + split; [lia|]. intros _. fold j. nia.
Qed.

Lemma Qceiling_fraction : forall m P, 0 < P ->
  Qceiling (m # Z.to_pos P) = - ((- m) / P).
Proof.
  intros m P HP. unfold Qceiling, Qfloor. simpl.
  now rewrite Z2Pos.id by assumption.
Qed.

(** The ceiling of the binary64 quotient of two integers below [2 ^ 53]
    is the ceiling of their quotient. *)
Lemma ceil_quotient : forall a b,
  0 <= a < 2 ^ 53 -> 0 < b < 2 ^ 53 ->
  exists q, toDouble a b = Finite q /\ Qceiling q = (a + b - 1) / b.
Proof.
  intros a b [Ha0 Ha] [Hb0 Hb]. unfold toDouble.
  destruct (Z.eqb_spec a 0) as [->|Hne].
  - exists 0%Q. split; [reflexivity|].
    simpl. now rewrite Z.div_small by lia.
  - assert (Hapos : 0 < a) by lia.
    pose proof (ilog2_spec a b Hapos Hb0) as [Hpos Hneg].
    set (e := ilog2 a b) in *.
    assert (Hrange : -54 < e < 53).
    { split.
      - destruct (Z.ltb_spec e 0) as [Hlt|Hge]; [|lia].
        specialize (Hneg Hlt).
        assert (H54 : 2 ^ (- e) < 2 ^ 54).
        { pose proof (pow2_pos (- e) ltac:(lia)).
          assert (2 ^ 54 = 2 * 2 ^ 53) by reflexivity. nia. }
        apply Z.pow_lt_mono_r_iff in H54; lia.
      - destruct (Z.ltb_spec e 0) as [Hlt|Hge]; [lia|].
        specialize (Hpos Hge).
        assert (H53 : 2 ^ e < 2 ^ 53).
        { pose proof (pow2_pos e Hge). nia. }
        apply Z.pow_lt_mono_r_iff in H53; lia. }
    rewrite Z.max_l by lia.
    set (k := 52 - e).
    assert (Hk : 0 <= k) by (unfold k; lia).
    pose proof (pow2_pos k Hk) as HP.
    assert (HbP : b < 2 * 2 ^ k).
    { destruct (Z.ltb_spec e 0) as [Hlt|Hge].
      - specialize (Hneg Hlt).
        assert (E : 2 * 2 ^ k = 2 ^ 53 * 2 ^ (- e)).
        { rewrite <- Z.pow_succ_r, <- pow2_split by lia.
          f_equal. unfold k. lia. }
        pose proof (pow2_pos (- e) ltac:(lia)). nia.
      - specialize (Hpos Hge).
        assert (E : 2 ^ 53 = 2 * 2 ^ k * 2 ^ e).
        { rewrite <- Z.pow_succ_r, <- pow2_split by lia.
          f_equal. unfold k. lia. }
        pose proof (pow2_pos e Hge). nia. }
    pose proof (ceil_round_quotient a b (2 ^ k) Ha0 Hb0 HP HbP) as Hceil.
    unfold scaled.
    destruct (Z.leb_spec 0 (e - 52)) as [Hge|Hlt].
    + assert (Ek : k = 0) by (unfold k; lia).
      assert (Ee : e - 52 = 0) by lia. rewrite Ee.
      rewrite Ek in Hceil. change (2 ^ 0) with 1 in *.
      rewrite !Z.mul_1_r in *. rewrite Z.div_1_r in Hceil.
      assert (Hm : roundHalfEven a b = (a + b - 1) / b) by lia.
      rewrite Hm.
      destruct (Z.leb_spec (2 ^ 1024) ((a + b - 1) / b)) as [Hbig|_].
      * exfalso.
        assert ((a + b - 1) / b < 2 ^ 54).
        { apply Z.div_lt_upper_bound; [assumption|].
          assert (2 ^ 54 = 2 * 2 ^ 53) by reflexivity. nia. }
        assert (2 ^ 54 < 2 ^ 1024) by reflexivity. lia.
      * eexists. split; [reflexivity|].
        unfold Qceiling, Qfloor, inject_Z. simpl.
        rewrite Z.div_1_r. now rewrite Z.opp_involutive.
    + replace (- (e - 52)) with k by (unfold k; lia).
      replace (52 - e) with k by reflexivity.
      eexists. split; [reflexivity|].
      rewrite (Qceiling_comp _ _ (Qred_correct _)).
      rewrite Qceiling_fraction by assumption. now rewrite Hceil.
Qed.

(** An integer of magnitude below [2 ^ 53] is a binary64 value. *)
Lemma rounded_whole : forall negative n,
  0 <= n < 2 ^ 53 -> rounded negative n 1 = DFin negative (inject_Z n).
Proof.
  intros negative n Hn. unfold rounded. now rewrite (toDouble_whole n Hn).
Qed.

Lemma ofZ_whole : forall z,
  - 2 ^ 53 < z < 2 ^ 53 -> ofZ z = DFin (z <? 0) (inject_Z (Z.abs z)).
Proof.
  intros z Hz. unfold ofZ. apply rounded_whole. lia.
Qed.

Lemma minusOne_whole : forall z,
  - 2 ^ 53 < z - 1 -> z < 2 ^ 53 -> minusOne (ofZ z) = ofZ (z - 1).
Proof.
  intros z Hlo Hhi. rewrite !ofZ_whole by lia.
  unfold minusOne, valueOf, Qminus, Qplus, Qopp, inject_Z.
  assert (E : Qnum (if z <? 0 then (- Z.abs z # 1)%Q else (Z.abs z # 1)%Q)
              = z).
  { destruct (Z.ltb_spec z 0); cbn [Qnum]; lia. }
  assert (D : Qden (if z <? 0 then (- Z.abs z # 1)%Q else (Z.abs z # 1)%Q)
              = 1%positive).
  { destruct (z <? 0); reflexivity. }
  cbn [Qnum Qden]. rewrite E, D.
  change (Z.pos (1 * 1)) with 1.
  match goal with
  | |- context [?e ?= 0] => replace e with (z - 1) by lia
  end.
  destruct (Z.compare_spec (z - 1) 0) as [H0|Hneg|Hpos].
  - rewrite H0. reflexivity.
  - rewrite rounded_whole by lia.
    destruct (Z.ltb_spec (z - 1) 0); [|lia].
    unfold inject_Z. do 2 f_equal. lia.
  - rewrite rounded_whole by lia.
    destruct (Z.ltb_spec (z - 1) 0); [lia|].
    unfold inject_Z. do 2 f_equal. lia.
Qed.

Lemma times_whole : forall a b,
  0 < b < 2 ^ 53 -> - 2 ^ 53 < a * b < 2 ^ 53 ->
  times (ofZ a) (ofZ b) = DFin (a * b <? 0) (inject_Z (Z.abs (a * b))).
Proof.
  intros a b Hb Hab.
  assert (Ha : - 2 ^ 53 < a < 2 ^ 53)
    by (destruct (Z.le_gt_cases 0 a); nia).
  assert (Hb' : - 2 ^ 53 < b < 2 ^ 53) by lia.
  rewrite (ofZ_whole a Ha), (ofZ_whole b Hb').
  unfold times, inject_Z. cbn [Qnum Qden].
  change (Z.pos 1 * Z.pos 1) with 1.
  rewrite rounded_whole by nia.
  destruct (Z.ltb_spec b 0); [lia|]. rewrite xorb_false_r.
  f_equal.
  - destruct (Z.ltb_spec a 0), (Z.ltb_spec (a * b) 0); try reflexivity; nia.
  - unfold inject_Z. f_equal. now rewrite Z.abs_mul.
Qed.

Lemma ceil_dividedBy_whole : forall a b,
  0 <= a < 2 ^ 53 -> 0 < b < 2 ^ 53 ->
  mathCeil (dividedBy (ofZ a) (ofZ b))
  = DFin false (inject_Z ((a + b - 1) / b)).
Proof.
  intros a b Ha Hb.
  rewrite (ofZ_whole a), (ofZ_whole b) by lia.
  destruct (Z.ltb_spec a 0); [lia|]. destruct (Z.ltb_spec b 0); [lia|].
  rewrite !Z.abs_eq by lia.
  unfold dividedBy, isZero, inject_Z. cbn [Qnum Qden xorb].
  destruct (Z.eqb_spec b 0); [lia|].
  change (Z.pos 1) with 1. rewrite Z.mul_1_r, Z.mul_1_l.
  destruct (ceil_quotient a b Ha Hb) as (q & Eq & Hq).
  unfold rounded. rewrite Eq. cbn [mathCeil]. now rewrite Hq.
Qed.

Lemma lessThan_whole : forall a b,
  - 2 ^ 53 < a < 2 ^ 53 -> - 2 ^ 53 < b < 2 ^ 53 ->
  lessThan (ofZ a) (ofZ b) = (a <? b).
Proof.
  intros a b Ha Hb. rewrite (ofZ_whole a Ha), (ofZ_whole b Hb).
  unfold lessThan, valueOf, Qle_bool, Qopp, inject_Z.
  destruct (Z.ltb_spec a 0), (Z.ltb_spec b 0); cbn [Qnum Qden];
    rewrite !Z.mul_1_r;
    destruct (Z.leb_spec (if b <? 0 then - Z.abs b else Z.abs b)
                         (if a <? 0 then - Z.abs a else Z.abs a));
    destruct (Z.ltb_spec a b); try reflexivity; 
    repeat match goal with
           | H : context [if ?c then _ else _] |- _ => destruct c eqn:?
           end; lia.
Qed.

Lemma ofZ_nonneg : forall z,
  0 <= z < 2 ^ 53 -> ofZ z = DFin false (inject_Z z).
Proof.
  intros z Hz. rewrite ofZ_whole by lia.
  destruct (Z.ltb_spec z 0); [lia|]. now rewrite Z.abs_eq by lia.
Qed.

(** X15: for a page size from 1 and a count of documents, both below
    [2 ^ 53], and a page number of magnitude below [2 ^ 53], the number
    of pages is the ceiling of the quotient of the count by the page
    size (the division of binary64 does not disturb it), [hasNext] holds
    exactly when documents remain after the page, [hasPrev] exactly when
    documents were skipped, and the number of documents skipped is the
    product of the page size by the number of the pages before, when
    that is of magnitude below [2 ^ 53]. *)
Theorem pagination_pages : forall pageNum limitNum total : Z,
  0 < limitNum < 2 ^ 53 -> 0 <= total < 2 ^ 53 ->
  - 2 ^ 53 < pageNum < 2 ^ 53 ->
  totalPages (paginate (ofZ pageNum) (ofZ limitNum) (ofZ total))
  = DFin false (inject_Z ((total + limitNum - 1) / limitNum))
  /\ (hasNext (paginate (ofZ pageNum) (ofZ limitNum) (ofZ total)) = true
      <-> (pageNum - 1) * limitNum + limitNum < total)
  /\ (hasPrev (paginate (ofZ pageNum) (ofZ limitNum) (ofZ total)) = true
      <-> 0 < (pageNum - 1) * limitNum)
  /\ (- 2 ^ 53 < (pageNum - 1) * limitNum < 2 ^ 53 ->
      skip (paginate (ofZ pageNum) (ofZ limitNum) (ofZ total))
      = DFin ((pageNum - 1) * limitNum <? 0)
             (inject_Z (Z.abs ((pageNum - 1) * limitNum)))).
Proof.
  intros pageNum limitNum total Hl Ht Hp.
  unfold paginate. cbn [totalPages hasNext hasPrev skip].
  rewrite (ceil_dividedBy_whole total limitNum Ht Hl).
  set (T := (total + limitNum - 1) / limitNum).
  pose proof (Z.div_mod (total + limitNum - 1) limitNum ltac:(lia)) as Hd.
  pose proof (Z.mod_pos_bound (total + limitNum - 1) limitNum ltac:(lia))
    as Hm.
  fold T in Hd.
  assert (HT : 0 <= T < 2 ^ 53) by nia.
  split; [reflexivity|]. split; [|split].
  - rewrite <- (ofZ_nonneg T HT), lessThan_whole by lia.
    rewrite Z.ltb_lt. split; intros H; nia.
  - rewrite lessThan_whole by lia.
    rewrite Z.ltb_lt. split; intros H; nia.
  - intros Hs. rewrite minusOne_whole by nia.
    now apply times_whole.
Qed.

(** The second page of 25 documents by 10. *)
Lemma pagination_pages_witness :
  0 < 10 < 2 ^ 53 /\ 0 <= 25 < 2 ^ 53 /\ - 2 ^ 53 < 2 < 2 ^ 53
  /\ totalPages (paginate (ofZ 2) (ofZ 10) (ofZ 25))
     = DFin false (inject_Z ((25 + 10 - 1) / 10))
  /\ (hasNext (paginate (ofZ 2) (ofZ 10) (ofZ 25)) = true
      <-> (2 - 1) * 10 + 10 < 25)
  /\ (hasPrev (paginate (ofZ 2) (ofZ 10) (ofZ 25)) = true
      <-> 0 < (2 - 1) * 10)
  /\ (- 2 ^ 53 < (2 - 1) * 10 < 2 ^ 53 ->
      skip (paginate (ofZ 2) (ofZ 10) (ofZ 25))
      = DFin ((2 - 1) * 10 <? 0) (inject_Z (Z.abs ((2 - 1) * 10)))).
Proof.
  assert (H1 : 0 < 10 < 2 ^ 53) by (split; reflexivity).
  assert (H2 : 0 <= 25 < 2 ^ 53) by (split; [discriminate | reflexivity]).
  assert (H3 : - 2 ^ 53 < 2 < 2 ^ 53) by (split; reflexivity).
  repeat (split; [assumption|]).
  exact (pagination_pages 2 10 25 H1 H2 H3).
Defined.



Local Close Scope Z_scope.
